(** * rain-signup: the sign-up page of [src/pages/index.tsx]

    The page is one React component, [Home].  Three parts of it carry
    behaviour:
    - the lookup table [scoreMap] and the strength meter rendered from it;
    - the zod [schema] that react-hook-form runs through [zodResolver];
    - the debounced password ([useDebounce] + [useState]) that feeds the key
      of [useSWR], whose [fetcher] posts to the scoring service.

    JavaScript objects used as maps (the form values, the candidate object
    given to the schema, the error object) are finite maps keyed by the
    property name; a property that is absent reads as [undefined]. *)

From Stdlib Require Import QArith.
From stdpp Require Import gmap strings list.

Local Open Scope string_scope.
Local Open Scope Z_scope.

(** ** JavaScript values *)

(** A JavaScript number: the finite ones are rationals (every finite double
    is one), the others are [NaN] and the two infinities. *)
Inductive number : Type :=
  | Fin (q : Q)
  | NaN
  | Infinity (negative : bool).

(** The primitive values a JSON response or a form field can hold. *)
Inductive value : Type :=
  | VUndefined
  | VNull
  | VBool (b : bool)
  | VNum (n : number)
  | VStr (s : string).

(** A JSON value, as the body of a response can hold. *)
#[warnings="-register-all"] Inductive json : Type :=
  | JNull
  | JBool (b : bool)
  | JNum (n : number)
  | JStr (s : string)
  | JArr (items : list json)
  | JObj (members : list (string * json)).

(** [x < y] on numbers; any comparison with [NaN] is false. *)
Definition lt_num (x y : number) : bool :=
  match x, y with
  | NaN, _ | _, NaN => false
  | Fin a, Fin b => negb (Qle_bool b a)
  | Fin _, Infinity neg => negb neg
  | Infinity neg, Fin _ => neg
  | Infinity a, Infinity b => a && negb b
  end.

(** [x >= y] on numbers. *)
Definition ge_num (x y : number) : bool :=
  match x, y with
  | NaN, _ | _, NaN => false
  | Fin a, Fin b => Qle_bool b a
  | Fin _, Infinity neg => neg
  | Infinity neg, Fin _ => negb neg
  | Infinity a, Infinity b => negb a || b
  end.

(** [!!s] for a string. *)
Definition truthy_string (s : string) : bool :=
  if decide (s = "") then false else true.

(** [!!v] for a form value read with [watch]: [undefined] and the empty
    string are falsy. *)
Definition truthy (v : option string) : bool :=
  match v with
  | Some s => truthy_string s
  | None => false
  end.

(** The translation function [t] of next-i18next: a key and the
    interpolation parameters. *)
Definition translator : Type := string -> list (string * Z) -> string.

(** ** Score presentation *)

Module Score.

(** An entry of [scoreMap]. *)
Record entry : Type := Entry {
  key : string;
  score : Z;
  color : string
}.

(** [scoreMap], lines 30-36. *)
Definition scoreMap : gmap Z entry :=
  list_to_map
    [ (0, Entry "very_weak" 20 "red");
      (1, Entry "weak" 40 "orange");
      (2, Entry "average" 60 "yellow");
      (3, Entry "strong" 80 "cyan");
      (4, Entry "very_strong" 100 "green") ].

(** The property names of [scoreMap] are the decimal strings of 0..4, so
    a number selects a property only when it is an integer; [index n] is
    that integer. *)
Definition index (n : number) : option Z :=
  match n with
  | Fin q =>
      let r := Qred q in
      if decide (Qden r = 1%positive) then Some (Qnum r) else None
  | NaN | Infinity _ => None
  end.

(** A string selects a property when it is the name of one, character
    for character. *)
Definition named (s : string) : option Z :=
  if decide (s = "0") then Some 0
  else if decide (s = "1") then Some 1
  else if decide (s = "2") then Some 2
  else if decide (s = "3") then Some 3
  else if decide (s = "4") then Some 4
  else None.

(** The property of [scoreMap] that [scoreMap[v]] reads, when the name
    that [v] is converted to is the decimal string of an integer.  The
    cast of line 106 checks nothing, so [v] is whatever the response
    holds: a number is converted to its decimal string, a string is
    the name itself, an array of one element converts as that element does
    ([null] gives the empty name), and [null], booleans, other arrays
    and objects give names that hold no digit string. *)
Fixpoint property (v : json) : option Z :=
  match v with
  | JNum n => index n
  | JStr s => named s
  | JArr (x :: nil) =>
      match x with
      | JNull => None
      | _ => property x
      end
  | _ => None
  end.

(** The body of a response of the scoring service, as far as the page
    reads it: the [score] property, when there is one. *)
Record response : Type := Response {
  resp_score : option json
}.

(** [data?.score], line 106; [data] is [undefined] until a response has
    arrived. *)
Definition score_of (data : option response) : option json :=
  match data with
  | Some r => resp_score r
  | None => None
  end.

(** [scoreMap[score]] for a score that is a number, with [undefined] for
    a missing property. *)
Definition lookup_score (sc : option number) : option entry :=
  match sc with
  | Some n =>
      match index n with
      | Some k => scoreMap !! k
      | None => None
      end
  | None => None
  end.

(** [scoreMap[score]] for whatever the response holds. *)
Definition select (sc : option json) : option entry :=
  match sc with
  | Some (JNum n) => lookup_score (Some n)
  | Some v =>
      match property v with
      | Some k => scoreMap !! k
      | None => None
      end
  | None => None
  end.

(** Lines 107-109. *)
Definition scoreTextKey (data : option response) : option string :=
  key <$> select (score_of data).
Definition scoreProgress (data : option response) : option Z :=
  score <$> select (score_of data).
Definition scoreColor (data : option response) : option string :=
  color <$> select (score_of data).

(** What lines 162-172 put on the page. *)
Record meter : Type := Meter {
  progress_colorScheme : option string;
  progress_value : option Z;
  label : string;
  hints : list string
}.

Section Render.
Variable t : translator.

(** [scoreTextKey && (<> ... </>)]: nothing unless [scoreTextKey] is a
    non-empty string. *)
Definition render (data : option response) : option meter :=
  match scoreTextKey data with
  | Some k =>
      if truthy_string k then
        Some (Meter (scoreColor data) (scoreProgress data) (t k [])
                [ t "not_repetitive" [];
                  t "not_include_name" [];
                  t "min_required" [("count", 8)] ])
      else None
  | None => None
  end.
End Render.

End Score.


(** ** Validation schema *)

Module Schema.

(** The type zod finds in a value before it applies a rule. *)
Inductive parsed_type : Type :=
  | TyUndefined | TyNull | TyBoolean | TyNumber | TyNan | TyString.

Definition getParsedType (v : value) : parsed_type :=
  match v with
  | VUndefined => TyUndefined
  | VNull => TyNull
  | VBool _ => TyBoolean
  | VNum NaN => TyNan
  | VNum _ => TyNumber
  | VStr _ => TyString
  end.

(** What a rule reports.  [invalid_type] with [TyUndefined] received is
    the issue zod words as "Required". *)
Inductive issue : Type :=
  | invalid_type (expected received : parsed_type)
  | too_small (minimum : Q)
  | invalid_email (message : string).

Definition required (i : issue) : bool :=
  match i with
  | invalid_type _ TyUndefined => true
  | _ => false
  end.

(** The rules chained after [z.number()] and [z.string()]. *)
Inductive number_check : Type :=
  | min (minimum : Q).

Inductive string_check : Type :=
  | email (message : string).

(** The two schema constructors the page uses. *)
Inductive zod : Type :=
  | z_number (checks : list number_check)
  | z_string (checks : list string_check).

(** A candidate object, and the error object react-hook-form keeps. *)
Abbreviation candidate := (gmap string value).
Abbreviation field_errors := (gmap string issue).

(** [c[k]]: an absent property reads as [undefined]. *)
Definition get (c : candidate) (k : string) : value :=
  default VUndefined (c !! k).

Section Validation.
Variable t : translator.
(** The pattern zod matches an address against; it lives in the zod
    library. *)
Variable email_regex : string -> bool.

Definition run_number_check (n : number) (c : number_check) : option issue :=
  match c with
  | min m => if lt_num n (Fin m) then Some (too_small m) else None
  end.

Definition run_string_check (s : string) (c : string_check) : option issue :=
  match c with
  | email message => if email_regex s then None else Some (invalid_email message)
  end.

(** The issues of one value against one schema: a value of the wrong type
    is reported as such and its rules are not run. *)
Definition parse (z : zod) (v : value) : list issue :=
  match z with
  | z_number checks =>
      match v with
      | VNum NaN => [invalid_type TyNumber TyNan]
      | VNum n => omap (run_number_check n) checks
      | _ => [invalid_type TyNumber (getParsedType v)]
      end
  | z_string checks =>
      match v with
      | VStr s => omap (run_string_check s) checks
      | _ => [invalid_type TyString (getParsedType v)]
      end
  end.

(** The argument of [z.object], lines 59-65. *)
Definition shape : list (string * zod) :=
  [ ("firstName", z_number [min 10]);
    ("middleName", z_string []);
    ("lastName", z_string []);
    ("email", z_string [email (t "email_invalid" [])]);
    ("password", z_string []) ].

(** [zodResolver]: each property of the shape is parsed and the first
    issue of a property becomes its entry in the error object. *)
Definition field_error (c : candidate) (kz : string * zod) : option (string * issue) :=
  (fun i => (kz.1, i)) <$> head (parse kz.2 (get c kz.1)).

Definition errors_of (sh : list (string * zod)) (c : candidate) : field_errors :=
  list_to_map (omap (field_error c) sh).

Definition errors (c : candidate) : field_errors := errors_of shape c.

(** What [handleSubmit] does with the form values: the callback receives
    the properties of the shape when there is no error, and is not called
    otherwise. *)
Inductive outcome : Type :=
  | Submitted (data : candidate)
  | Rejected (errs : field_errors).

(** The object zod returns: the properties the shape names. *)
Definition strip (c : candidate) : candidate :=
  filter (fun kv : string * value => kv.1 ∈ shape.*1) c.

Definition handleSubmit (c : candidate) : outcome :=
  let errs := errors c in
  if decide (errs = ∅) then Submitted (strip c) else Rejected errs.

End Validation.

(** An instance of the address pattern, used to run the schema on concrete
    objects: it accepts the addresses listed here and nothing else. *)
Definition sample_email_regex (s : string) : bool :=
  bool_decide (s ∈ ["ada@example.org"; "a@b.co"]).

(** An instance of [t] that returns the key. *)
Definition sample_t : translator := fun k _ => k.

End Schema.

(** ** Debounced trigger and scoring client *)

Module Page.

(** The inputs of the form.  All five are registered and watched. *)
Inductive field : Type :=
  | firstName | middleName | lastName | email | password.

Definition name (f : field) : string :=
  match f with
  | firstName => "firstName"
  | middleName => "middleName"
  | lastName => "lastName"
  | email => "email"
  | password => "password"
  end.

(** The texts the user has given the inputs so far.  An input not edited
    yet is absent here; the page reads it as [undefined] or as the empty
    text, which it does not tell apart. *)
Abbreviation form_values := (gmap string string).

(** [watch(name)] and [watch([names])]. *)
Definition watch (values : form_values) (f : field) : option string :=
  values !! name f.

Definition watch_all (values : form_values) (fs : list field) : list (option string) :=
  watch values <$> fs.

(** [relatedTerms.filter((e) => !!e)]: the texts that are neither
    [undefined] nor empty, in order. *)
Definition filter_truthy (terms : list (option string)) : list string :=
  omap (fun e => if truthy e then e else None) terms.

(** What [axios.post(url, data)] sends.  The call passes no third
    argument, so the request carries no configuration of its own (no
    header, no timeout). *)
Inductive http_method : Type := GET | POST.

Record axios_config : Type := AxiosConfig {
  headers : list (string * string);
  request_timeout : option nat
}.

Record request : Type := Request {
  method : http_method;
  url : string;
  body_password : string;
  body_related_terms : list string;
  config : option axios_config
}.

(** The key of [useSWR], lines 95-101, when it is not [null]. *)
Definition swr_key : Type := string * string * list string.

(** [fetcher], lines 47-53. *)
Definition fetcher (k : swr_key) : request :=
  let '(u, pw, relatedTerms) := k in
  Request POST u pw relatedTerms None.

Definition endpoint : string :=
  "https://dev-gcc.rain-test.com/api/1/password/strength".

(** The delay given to [useDebounce], in milliseconds. *)
Definition delay : nat := 1000.

(** What SWR keeps about the requests of the page.  The options of line
    103 switch off the revalidation on focus and nothing else, so SWR
    deduplicates and retries as it does by default: a key whose request
    it still holds (in flight, or answered within the deduping interval)
    is not fetched again, and a request that failed is sent again. *)
Record swr_cache : Type := Swr {
  inflight : list swr_key;
  held : list swr_key;
  retries : list swr_key
}.

(** The component between two events.  [timeout] is the time left on the
    timeout [useDebounce] holds, in milliseconds, when one is pending.
    [commits] lists the arguments of the calls to [setDebouncedPassword]
    and [requests] the requests [fetcher] has sent, oldest first. *)
Record state : Type := State {
  values : form_values;
  debouncedPassword : string;
  timeout : option nat;
  commits : list string;
  requests : list request;
  swr : swr_cache
}.

(** Lines 79-80. *)
Definition current_password (s : state) : option string :=
  watch (values s) password.

Definition relatedTerms (s : state) : list (option string) :=
  watch_all (values s) [email; firstName; lastName; middleName].

(** The first argument of [useSWR], lines 95-101. *)
Definition key (s : state) : option swr_key :=
  if truthy_string (debouncedPassword s)
  then Some (endpoint, debouncedPassword s, filter_truthy (relatedTerms s))
  else None.

Definition without (k : swr_key) (keys : list swr_key) : list swr_key :=
  filter (fun x => x <> k) keys.

(** SWR asked for key [k]: [fetcher] is called unless SWR still holds a
    request for [k]. *)
Definition fetch (k : swr_key) (s : state) : state :=
  if decide (k ∈ held (swr s)) then s
  else State (values s) (debouncedPassword s) (timeout s) (commits s)
         (requests s ++ [fetcher k])
         (Swr (k :: inflight (swr s)) (k :: held (swr s)) (retries (swr s))).

(** [useSWR] at a render: when the key is not [null] and is not the key
    of the render before, SWR asks for it. *)
Definition revalidate (before : option swr_key) (s : state) : state :=
  match key s with
  | Some k => if decide (before = Some k) then s else fetch k s
  | None => s
  end.

(** A render of the page.  [relatedTerms] (line 80) is a new array at
    each render and a dependency of [useDebounce] (line 91), so every
    render starts the timeout again. *)
Definition render (before : option swr_key) (s : state) : state :=
  revalidate before
    (State (values s) (debouncedPassword s) (Some delay) (commits s) (requests s) (swr s)).

(** [setDebouncedPassword(p)].  React drops an update that leaves the
    state as it is; any other one renders the page. *)
Definition setDebouncedPassword (p : string) (s : state) : state :=
  if decide (p = debouncedPassword s)
  then State (values s) (debouncedPassword s) (timeout s) (commits s ++ [p])
         (requests s) (swr s)
  else render (key s)
         (State (values s) p (timeout s) (commits s ++ [p]) (requests s) (swr s)).

(** The function given to [useDebounce], lines 85-89. *)
Definition callback (s : state) : state :=
  match current_password s with
  | Some p => if truthy_string p then setDebouncedPassword p s else s
  | None => s
  end.

(** The user edits input [f], whose text becomes [v]: the value is
    stored and the page renders. *)
Definition input (f : field) (v : string) (s : state) : state :=
  render (key s)
    (State (<[name f := v]> (values s)) (debouncedPassword s) (timeout s)
       (commits s) (requests s) (swr s)).

(** One millisecond passes.  A timeout that reaches its end runs the
    callback. *)
Definition tick (s : state) : state :=
  match timeout s with
  | None => s
  | Some r =>
      if decide (r ≤ 1)%nat
      then callback (State (values s) (debouncedPassword s) None (commits s)
                       (requests s) (swr s))
      else State (values s) (debouncedPassword s) (Some (r - 1)%nat) (commits s)
             (requests s) (swr s)
  end.

Fixpoint elapse (ms : nat) (s : state) : state :=
  match ms with
  | O => s
  | S ms' => elapse ms' (tick s)
  end.

(** The answer to the request for [k] arrives: the page renders if [k]
    is its key, and SWR holds the request for the deduping interval. *)
Definition respond (k : swr_key) (s : state) : state :=
  if decide (k ∈ inflight (swr s)) then
    let s' := State (values s) (debouncedPassword s) (timeout s) (commits s) (requests s)
                (Swr (without k (inflight (swr s))) (held (swr s)) (retries (swr s))) in
    if decide (key s = Some k) then render (key s) s' else s'
  else s.

(** The request for [k] fails: SWR drops it, and if [k] is the key of the
    page it schedules the retry and the page renders. *)
Definition fail (k : swr_key) (s : state) : state :=
  if decide (k ∈ inflight (swr s)) then
    if decide (key s = Some k) then
      render (key s)
        (State (values s) (debouncedPassword s) (timeout s) (commits s) (requests s)
           (Swr (without k (inflight (swr s))) (without k (held (swr s)))
              (k :: retries (swr s))))
    else
      State (values s) (debouncedPassword s) (timeout s) (commits s) (requests s)
        (Swr (without k (inflight (swr s))) (without k (held (swr s))) (retries (swr s)))
  else s.

(** The retry of the failed request for [k] is due: SWR asks for [k]
    again, and the page renders if a request goes out for its key. *)
Definition retry (k : swr_key) (s : state) : state :=
  if decide (k ∈ retries (swr s)) then
    let s' := State (values s) (debouncedPassword s) (timeout s) (commits s) (requests s)
                (Swr (inflight (swr s)) (held (swr s)) (without k (retries (swr s)))) in
    if decide (k ∈ held (swr s)) then s'
    else if decide (key s = Some k) then render (key s) (fetch k s') else fetch k s'
  else s.

(** The deduping interval of an answered request for [k] is over. *)
Definition expire (k : swr_key) (s : state) : state :=
  if decide (k ∈ held (swr s) /\ k ∉ inflight (swr s)) then
    State (values s) (debouncedPassword s) (timeout s) (commits s) (requests s)
      (Swr (inflight (swr s)) (without k (held (swr s))) (retries (swr s)))
  else s.

(** The events of the page: an edit of an input, time passing with
    nothing else happening, a render for another reason (a submission
    that fills the error object, a change of language), and what the
    network and the timers of SWR bring: the answer to a request, its
    failure, the retry of a failed request, the end of a deduping
    interval.  When the last two happen is for SWR to say (the retry
    after a random back-off, the deduping interval 2000 ms after the
    answer); here they may happen at any time. *)
Inductive event : Type :=
  | Input (f : field) (v : string)
  | Elapse (ms : nat)
  | Render
  | Respond (k : swr_key)
  | Fail (k : swr_key)
  | Retry (k : swr_key)
  | Expire (k : swr_key).

Definition step (s : state) (e : event) : state :=
  match e with
  | Input f v => input f v s
  | Elapse ms => elapse ms s
  | Render => render (key s) s
  | Respond k => respond k s
  | Fail k => fail k s
  | Retry k => retry k s
  | Expire k => expire k s
  end.

Definition run (es : list event) (s : state) : state :=
  foldl step s es.

(** The component once mounted: no input edited, [useState('')], the
    timeout of [useDebounce] started, nothing asked of SWR. *)
Definition mount : state := State ∅ "" (Some delay) [] [] (Swr [] [] []).

(** The strength meter of the page, given the response SWR holds for each
    key. *)
Definition meter (t : translator) (data : swr_key -> option Score.response)
    (s : state) : option Score.meter :=
  Score.render t (key s ≫= data).

End Page.

(** ** Static props and submission *)

Module Home.

Section StaticProps.
Context {props : Type}.
(** [serverSideTranslations] of next-i18next: the translations of the
    given namespaces for a locale. *)
Variable serverSideTranslations : string -> list string -> props.

(** [locale || 'en'], line 41. *)
Definition locale_or_en (locale : option string) : string :=
  match locale with
  | Some l => if truthy_string l then l else "en"
  | None => "en"
  end.

(** [getStaticProps], lines 38-45: the props of the page are what
    [serverSideTranslations] returns. *)
Definition getStaticProps (locale : option string) : props :=
  serverSideTranslations (locale_or_en locale) ["common"].
End StaticProps.

(** The object [handleSubmit] validates.  The five inputs are registered
    as they are (lines 124-151), so the object holds the text of each of
    them, the empty text for an input not edited yet. *)
Definition form_candidate (values : Page.form_values) : Schema.candidate :=
  list_to_map
    ((fun f => (Page.name f, VStr (default "" (Page.watch values f)))) <$>
     [Page.firstName; Page.middleName; Page.lastName; Page.email; Page.password]).

(** [onSubmit], lines 111-113. *)
Definition onSubmit (t : translator) (email_regex : string -> bool)
    (s : Page.state) : Schema.outcome :=
  Schema.handleSubmit t email_regex (form_candidate (Page.values s)).

End Home.

(** ** Vocabulary of the properties *)

(** A score in the range 0-4 the scoring service documents. *)
Definition in_range (n : number) : bool :=
  ge_num n (Fin 0) && ge_num (Fin 4) n.

(** The number [n] is the integer [k]. *)
Definition is_integer (n : number) (k : Z) : Prop :=
  match n with
  | Fin q => Qeq q (inject_Z k)
  | NaN | Infinity _ => False
  end.

(** A response whose [score] is [n]. *)
Definition scored (n : number) : option Score.response :=
  Some (Score.Response (Some (JNum n))).

(** The three hint lines, which do not depend on the score. *)
Definition hint_lines (t : translator) : list string :=
  [ t "not_repetitive" []; t "not_include_name" []; t "min_required" [("count", 8)] ].

(** An object with every property but [middleName]. *)
Definition no_middleName : Schema.candidate :=
  list_to_map
    [ ("firstName", VNum (Fin 10)); ("lastName", VStr "Lovelace");
      ("email", VStr "ada@example.org"); ("password", VStr "hunter22") ].

(** An object whose three plain strings are all empty. *)
Definition empty_strings : Schema.candidate :=
  list_to_map
    [ ("firstName", VNum (Fin 10)); ("middleName", VStr ""); ("lastName", VStr "");
      ("email", VStr "ada@example.org"); ("password", VStr "") ].




(** An event that leaves the password input empty if it is. *)
Definition keeps_password_empty (e : Page.event) : Prop :=
  match e with
  | Page.Input Page.password v => v = ""
  | _ => True
  end.

(** The request [fetcher] sends for the key of state [s]. *)
Definition request_of (s : Page.state) : Page.request :=
  Page.Request Page.POST Page.endpoint (Page.debouncedPassword s)
    (Page.filter_truthy (Page.relatedTerms s)) None.


(** The shape of a scoring request. *)
Definition scoring_request (r : Page.request) : Prop :=
  Page.method r = Page.POST /\
  Page.url r = "https://dev-gcc.rain-test.com/api/1/password/strength" /\
  Page.config r = None /\
  Page.body_password r <> "" /\
  "" ∉ Page.body_related_terms r.

(** The password "abc" is committed; the user then goes on typing, first
    in the password input and then, twice within 20 ms, in the email
    input. *)
Definition typing_after_commit : list Page.event :=
  [ Page.Input Page.password "abc"; Page.Elapse 1000;
    Page.Input Page.password "abcd"; Page.Elapse 10;
    Page.Input Page.email "a"; Page.Elapse 10;
    Page.Input Page.email "ab" ].

(** The five properties the schema names. *)
Definition field_names : list string :=
  ["firstName"; "middleName"; "lastName"; "email"; "password"].

(** An event that is no edit of an input. *)
Definition no_edit (e : Page.event) : Prop :=
  match e with
  | Page.Input _ _ => False
  | _ => True
  end.

(** An event in which the delay of [useDebounce] passes with nothing
    else happening. *)
Definition waits (e : Page.event) : Prop :=
  match e with
  | Page.Elapse ms => (1000 <= ms)%nat
  | _ => False
  end.

(** What follows an edit when the user stops typing: no further edit,
    and at some point 1000 ms in which nothing happens. *)
Definition quiet (es : list Page.event) : Prop :=
  Forall no_edit es /\ Exists waits es.

(** Password edits, each followed by other events. *)
Definition periods (ps : list (string * list Page.event)) : list Page.event :=
  flat_map (fun pe => Page.Input Page.password pe.1 :: pe.2) ps.

(** What holds of the component after any run from [Page.mount]: the
    debounced password is the last password committed, no committed
    password is empty, and every request carries a committed password. *)
Definition consistent (s : Page.state) : Prop :=
  Page.debouncedPassword s = List.last (Page.commits s) "" /\
  Forall (fun p => p <> "") (Page.commits s) /\
  Forall (fun r => Page.body_password r ∈ Page.commits s) (Page.requests s).


(** A key SWR may hold after a run from [Page.mount]: the endpoint, a
    password that was committed, related terms none of which is empty. *)
Definition sound_key (s : Page.state) (k : Page.swr_key) : Prop :=
  k.1.1 = Page.endpoint /\ k.1.2 ∈ Page.commits s /\ k.1.2 <> "" /\ "" ∉ k.2.

Definition sound (s : Page.state) : Prop :=
  consistent s /\
  Forall scoring_request (Page.requests s) /\
  Forall (sound_key s)
    (Page.inflight (Page.swr s) ++ Page.held (Page.swr s) ++ Page.retries (Page.swr s)).

(** The state [s] with another timeout. *)
Definition with_timeout (to : option nat) (s : Page.state) : Page.state :=
  Page.State (Page.values s) (Page.debouncedPassword s) to (Page.commits s)
    (Page.requests s) (Page.swr s).


(** What holds of the component [k] calls of [setDebouncedPassword] after
    the user stopped typing with password [p], the calls made until then
    being [c0] and the debounced password [d0]: every call since passed
    [p], none was made if [p] is empty, and the debounced password is [p]
    from the first call on. *)
Definition since (p : string) (c0 : list string) (d0 : string) (k : nat)
    (s : Page.state) : Prop :=
  Page.current_password s = Some p /\
  Page.commits s = (c0 ++ repeat p k)%list /\
  (p = "" -> k = 0%nat) /\
  Page.debouncedPassword s = (if decide (k = 0%nat) then d0 else p).

(** The callback has run since the user stopped typing, or it is due
    within the delay. *)
Definition armed (p : string) (k : nat) (s : Page.state) : Prop :=
  (exists r, Page.timeout s = Some r /\ (r <= Page.delay)%nat) \/
  p = "" \/ (1 <= k)%nat.

(** * Properties of the score presentation *)

Lemma index_is_integer (n : number) (k : Z) :
  Score.index n = Some k -> is_integer n k.
Proof.
  destruct n as [q| |neg]; simpl; try discriminate.
  destruct (decide (Qden (Qred q) = 1%positive)) as [Hden|]; [|discriminate].
  intros [= <-].
  rewrite <- (Qred_correct q) at 1.
  destruct (Qred q) as [a b]; simpl in *; subst b.
  reflexivity.
Qed.

Lemma is_integer_index (n : number) (k : Z) :
  is_integer n k -> Score.index n = Some k.
Proof.
  destruct n as [q| |neg]; simpl; try tauto.
  intros Hq. apply Qred_complete in Hq.
  rewrite Hq. change (Qred (inject_Z k)) with (Qred (k # 1)).
  assert (Hred : Qred (k # 1) = k # 1).
  { unfold Qred. generalize (Z.ggcd_correct_divisors k 1), (Z.ggcd_gcd k 1).
    rewrite Z.gcd_1_r. destruct (Z.ggcd k 1) as [g [a b]]; simpl.
    intros [Ha Hb] ->. rewrite Z.mul_1_l in Ha, Hb. subst a b. reflexivity. }
  rewrite Hred; simpl. reflexivity.
Qed.

Lemma scoreMap_defined (k : Z) :
  is_Some (Score.scoreMap !! k) <-> 0 <= k <= 4.
Proof.
  unfold Score.scoreMap. rewrite <- elem_of_dom, dom_list_to_map_L. simpl.
  set_unfold. lia.
Qed.

Lemma scoreMap_outside (k : Z) :
  ~ 0 <= k <= 4 -> Score.scoreMap !! k = None.
Proof.
  intros Hk. apply eq_None_not_Some. now rewrite scoreMap_defined.
Qed.

Lemma render_no_entry (t : translator) (data : option Score.response) :
  Score.select (Score.score_of data) = None -> Score.render t data = None.
Proof.
  unfold Score.render, Score.scoreTextKey. now intros ->.
Qed.

Lemma in_range_integer (n : number) (k : Z) :
  is_integer n k -> in_range n = true <-> 0 <= k <= 4.
Proof.
  destruct n as [q| |neg]; simpl; try tauto.
  intros Hq. unfold in_range; simpl.
  rewrite andb_true_iff, !Qle_bool_iff, Hq.
  change 0%Q with (inject_Z 0). change 4%Q with (inject_Z 4).
  rewrite <- !Zle_Qle. reflexivity.
Qed.

(** C2. The tier is a function of the score alone.  Score 0 gives label
    "very_weak", percentage 20 and colour red; 1 gives "weak", 40, orange;
    2 gives "average", 60, yellow; 3 gives "strong", 80, cyan; 4 gives
    "very_strong", 100, green.  A score outside [0,4], a response without
    score and the absence of a response render nothing. *)
Theorem tier_mapping (t : translator) :
  (forall data data', Score.score_of data = Score.score_of data' ->
     Score.render t data = Score.render t data') /\
  Score.render t (scored (Fin 0)) =
    Some (Score.Meter (Some "red") (Some 20) (t "very_weak" []) (hint_lines t)) /\
  Score.render t (scored (Fin 1)) =
    Some (Score.Meter (Some "orange") (Some 40) (t "weak" []) (hint_lines t)) /\
  Score.render t (scored (Fin 2)) =
    Some (Score.Meter (Some "yellow") (Some 60) (t "average" []) (hint_lines t)) /\
  Score.render t (scored (Fin 3)) =
    Some (Score.Meter (Some "cyan") (Some 80) (t "strong" []) (hint_lines t)) /\
  Score.render t (scored (Fin 4)) =
    Some (Score.Meter (Some "green") (Some 100) (t "very_strong" []) (hint_lines t)) /\
  (forall n, in_range n = false ->
     Score.render t (scored n) = None /\
     Score.scoreTextKey (scored n) = None /\
     Score.scoreProgress (scored n) = None /\
     Score.scoreColor (scored n) = None) /\
  Score.render t (Some (Score.Response None)) = None /\
  Score.render t None = None.
Proof.
  split.
  { intros data data' Heq.
    unfold Score.render, Score.scoreTextKey, Score.scoreColor, Score.scoreProgress.
    now rewrite Heq. }
  do 5 (split; [reflexivity|]).
  split; [|split; reflexivity].
  intros n Hout.
  assert (Hnone : Score.select (Score.score_of (scored n)) = None).
  { simpl. destruct (Score.index n) as [k|] eqn:Hk; [|reflexivity].
    apply scoreMap_outside. intros Hin.
    apply index_is_integer in Hk.
    apply (in_range_integer n k Hk) in Hin. congruence. }
  unfold Score.scoreTextKey, Score.scoreProgress, Score.scoreColor.
  rewrite (render_no_entry t _ Hnone), Hnone. repeat split.
Qed.

(** A score of 5 is outside the range: nothing is rendered. *)
Lemma tier_mapping_witness :
  in_range (Fin 5) = false /\
  Score.render Schema.sample_t (scored (Fin 5)) = None.
Proof.
  split; [reflexivity|].
  destruct (tier_mapping Schema.sample_t) as (_ & _ & _ & _ & _ & _ & Hout & _).
  apply (Hout (Fin 5)). reflexivity.
Defined.

(** C10. The lookup is defined at the integers 0, 1, 2, 3, 4 and nowhere
    else: for a score that is any other number, 2.5 among them, the page
    renders no tier, progress bar, label or hint line, as it does when the
    score is absent. *)
Theorem tier_only_at_integers (t : translator) (n : number) :
  (forall k, 0 <= k <= 4 -> ~ is_integer n k) ->
  Score.lookup_score (Some n) = None /\
  Score.scoreTextKey (scored n) = None /\
  Score.scoreProgress (scored n) = None /\
  Score.scoreColor (scored n) = None /\
  Score.render t (scored n) = None /\
  Score.render t (scored n) = Score.render t (Some (Score.Response None)) /\
  Score.render t (scored n) = Score.render t None.
Proof.
  intros Hother.
  assert (Hnone : Score.lookup_score (Some n) = None).
  { simpl. destruct (Score.index n) as [k|] eqn:Hk; [|reflexivity].
    apply scoreMap_outside. intros Hin.
    exact (Hother k Hin (index_is_integer n k Hk)). }
  unfold Score.scoreTextKey, Score.scoreProgress, Score.scoreColor.
  rewrite (render_no_entry t (scored n) Hnone). simpl Score.score_of.
  cbn [Score.select]. rewrite Hnone. repeat split.
Qed.

Lemma half_is_no_integer (k : Z) : ~ is_integer (Fin (5 # 2)) k.
Proof.
  unfold is_integer, Qeq, inject_Z; simpl. lia.
Qed.

(** The score 2.5 lies strictly between 0 and 4 and selects no tier. *)
Lemma tier_only_at_integers_witness :
  in_range (Fin (5 # 2)) = true /\
  Score.render Schema.sample_t (scored (Fin (5 # 2))) = None.
Proof.
  split; [reflexivity|].
  apply (tier_only_at_integers Schema.sample_t (Fin (5 # 2))).
  intros k _. apply half_is_no_integer.
Defined.

(** Conversely an integer score from 0 to 4 does select an entry, whatever
    fraction represents it. *)
Lemma tier_at_integers (n : number) (k : Z) :
  is_integer n k -> 0 <= k <= 4 -> is_Some (Score.lookup_score (Some n)).
Proof.
  intros Hn Hk. simpl. rewrite (is_integer_index n k Hn).
  now apply scoreMap_defined.
Qed.

(** * Properties of the validation schema *)

Section SchemaFacts.
Variable t : translator.
Variable email_regex : string -> bool.

(** The entry of the error object for a property is the first issue of
    that property against its schema. *)
Lemma errors_of_lookup (sh : list (string * Schema.zod)) (c : Schema.candidate) (k : string) :
  NoDup sh.*1 ->
  Schema.errors_of email_regex sh c !! k =
    match (list_to_map sh : gmap string Schema.zod) !! k with
    | Some z => head (Schema.parse email_regex z (Schema.get c k))
    | None => None
    end.
Proof.
  unfold Schema.errors_of.
  induction sh as [|[k0 z0] sh IH]; intros Hnd; [reflexivity|].
  rewrite fmap_cons in Hnd. apply NoDup_cons in Hnd as [Hk0 Hnd].
  specialize (IH Hnd).
  rewrite list_to_map_cons.
  change (omap (Schema.field_error email_regex c) ((k0, z0) :: sh))
    with (match Schema.field_error email_regex c (k0, z0) with
          | Some y => y :: omap (Schema.field_error email_regex c) sh
          | None => omap (Schema.field_error email_regex c) sh
          end).
  unfold Schema.field_error at 1.
  change ((k0, z0).1) with k0 in *. change ((k0, z0).2) with z0.
  destruct (head (Schema.parse email_regex z0 (Schema.get c k0))) as [i|] eqn:Hi;
    cbn [fmap option_fmap option_map].
  - rewrite list_to_map_cons.
    destruct (decide (k = k0)) as [->|Hne].
    + now rewrite !lookup_insert_eq.
    + rewrite !lookup_insert_ne by congruence. exact IH.
  - destruct (decide (k = k0)) as [->|Hne].
    + rewrite lookup_insert_eq, IH, Hi.
      now rewrite (not_elem_of_list_to_map_1 _ _ Hk0).
    + rewrite lookup_insert_ne by congruence. exact IH.
Qed.

Lemma shape_NoDup : NoDup (Schema.shape t).*1.
Proof.
  apply (bool_decide_unpack _). vm_compute. exact I.
Qed.

Lemma errors_lookup (c : Schema.candidate) (k : string) :
  Schema.errors t email_regex c !! k =
    match (list_to_map (Schema.shape t) : gmap string Schema.zod) !! k with
    | Some z => head (Schema.parse email_regex z (Schema.get c k))
    | None => None
    end.
Proof.
  apply errors_of_lookup, shape_NoDup.
Qed.

(** A property declared [z.string()] with no rule after it: any string
    passes, and a value of another type is reported as such. *)
Lemma plain_string_error (c : Schema.candidate) (k : string) :
  (list_to_map (Schema.shape t) : gmap string Schema.zod) !! k = Some (Schema.z_string []) ->
  Schema.errors t email_regex c !! k =
    match Schema.get c k with
    | VStr _ => None
    | v => Some (Schema.invalid_type Schema.TyString (Schema.getParsedType v))
    end.
Proof.
  intros Hk. rewrite errors_lookup, Hk.
  destruct (Schema.get c k) as [| | |[]|]; reflexivity.
Qed.

Lemma shape_middleName :
  (list_to_map (Schema.shape t) : gmap string Schema.zod) !! "middleName" = Some (Schema.z_string []).
Proof. reflexivity. Qed.

Lemma shape_lastName :
  (list_to_map (Schema.shape t) : gmap string Schema.zod) !! "lastName" = Some (Schema.z_string []).
Proof. reflexivity. Qed.

Lemma shape_password :
  (list_to_map (Schema.shape t) : gmap string Schema.zod) !! "password" = Some (Schema.z_string []).
Proof. reflexivity. Qed.

Lemma shape_email :
  (list_to_map (Schema.shape t) : gmap string Schema.zod) !! "email" =
    Some (Schema.z_string [Schema.email (t "email_invalid" [])]).
Proof. reflexivity. Qed.

Lemma shape_firstName :
  (list_to_map (Schema.shape t) : gmap string Schema.zod) !! "firstName" =
    Some (Schema.z_number [Schema.min 10]).
Proof. reflexivity. Qed.

Lemma shape_other (k : string) :
  k ∉ ["firstName"; "middleName"; "lastName"; "email"; "password"] ->
  (list_to_map (Schema.shape t) : gmap string Schema.zod) !! k = None.
Proof.
  intros Hk. apply not_elem_of_list_to_map_1. exact Hk.
Qed.

End SchemaFacts.

Lemma ge_not_lt (n m : number) : ge_num n m = true -> lt_num n m = false.
Proof.
  destruct n as [a| |[]], m as [b| |[]]; simpl; try congruence.
  now intros ->.
Qed.

Lemma get_present (c : Schema.candidate) (k : string) (v : value) :
  c !! k = Some v -> Schema.get c k = v.
Proof. unfold Schema.get. now intros ->. Qed.

(** What the schema asks of an object, and no more: first name a number
    at least 10, the other four properties strings, the address matching
    the pattern. *)
Lemma schema_accepts (t : translator) (email_regex : string -> bool)
    (c : Schema.candidate) (n : number) (mn ln em pw : string) :
  c !! "firstName" = Some (VNum n) -> ge_num n (Fin 10) = true ->
  c !! "middleName" = Some (VStr mn) ->
  c !! "lastName" = Some (VStr ln) ->
  c !! "email" = Some (VStr em) -> email_regex em = true ->
  c !! "password" = Some (VStr pw) ->
  Schema.errors t email_regex c = ∅.
Proof.
  intros Hfn Hn Hmn Hln Hem Hre Hpw.
  apply map_eq; intros k. rewrite lookup_empty.
  destruct (decide (k ∈ ["firstName"; "middleName"; "lastName"; "email"; "password"]))
    as [Hin|Hout].
  - rewrite !elem_of_cons, elem_of_nil in Hin.
    destruct Hin as [->|[->|[->|[->|[->|[]]]]]].
    + rewrite errors_lookup, shape_firstName, (get_present _ _ _ Hfn).
      assert (Hlt := ge_not_lt _ _ Hn).
      destruct n as [q| |neg]; [| discriminate |];
        cbn [Schema.parse omap list_omap Schema.run_number_check];
        now rewrite Hlt.
    + now rewrite plain_string_error, (get_present _ _ _ Hmn) by apply shape_middleName.
    + now rewrite plain_string_error, (get_present _ _ _ Hln) by apply shape_lastName.
    + rewrite errors_lookup, shape_email, (get_present _ _ _ Hem). simpl.
      now rewrite Hre.
    + now rewrite plain_string_error, (get_present _ _ _ Hpw) by apply shape_password.
  - now rewrite errors_lookup, shape_other.
Qed.

(** C3, as amended.  [middleName] is declared [z.string()] with no rule
    after it: every string, the empty one included, gives no error entry
    for [middleName]; an object in which [middleName] is absent gets the
    "Required" issue for it. *)
Theorem middleName_any_string (t : translator) (email_regex : string -> bool)
    (c : Schema.candidate) :
  (list_to_map (Schema.shape t) : gmap string Schema.zod) !! "middleName" =
    Some (Schema.z_string []) /\
  (forall s, c !! "middleName" = Some (VStr s) ->
     Schema.errors t email_regex c !! "middleName" = None) /\
  (Schema.get c "middleName" = VUndefined ->
     Schema.errors t email_regex c !! "middleName" =
       Some (Schema.invalid_type Schema.TyString Schema.TyUndefined)).
Proof.
  split; [reflexivity|]. split.
  - intros s Hs.
    now rewrite plain_string_error, (get_present _ _ _ Hs) by apply shape_middleName.
  - intros Hu. now rewrite plain_string_error, Hu by apply shape_middleName.
Qed.

Lemma middleName_any_string_witness :
  Schema.errors Schema.sample_t Schema.sample_email_regex
    (<["middleName" := VStr ""]> no_middleName) !! "middleName" = None /\
  Schema.errors Schema.sample_t Schema.sample_email_regex no_middleName !! "middleName" =
    Some (Schema.invalid_type Schema.TyString Schema.TyUndefined).
Proof.
  destruct (middleName_any_string Schema.sample_t Schema.sample_email_regex
              (<["middleName" := VStr ""]> no_middleName)) as (_ & Hstr & _).
  destruct (middleName_any_string Schema.sample_t Schema.sample_email_regex
              no_middleName) as (_ & _ & Habs).
  split; [apply (Hstr ""); reflexivity | apply Habs; reflexivity].
Defined.

(** C3 as stated fails: [middleName] is absent from [no_middleName] and
    validation reports an error for it. *)
Lemma middleName_absent_rejected :
  no_middleName !! "middleName" = None /\
  Schema.errors Schema.sample_t Schema.sample_email_regex no_middleName !! "middleName" <> None /\
  (exists i, Schema.errors Schema.sample_t Schema.sample_email_regex no_middleName
               !! "middleName" = Some i /\ Schema.required i = true).
Proof.
  split; [reflexivity|]. split.
  - vm_compute. discriminate.
  - exists (Schema.invalid_type Schema.TyString Schema.TyUndefined).
    split; vm_compute; reflexivity.
Qed.

(** C4, as amended.  An object whose [lastName], [email] and [password]
    are non-empty strings, whose [email] matches the address pattern, whose
    [firstName] is a number at least 10 and whose [middleName] is a string
    has no error, and [handleSubmit] hands it to the callback. *)
Theorem valid_form_accepted (t : translator) (email_regex : string -> bool)
    (c : Schema.candidate) (n : number) (mn ln em pw : string) :
  c !! "lastName" = Some (VStr ln) -> ln <> "" ->
  c !! "email" = Some (VStr em) -> em <> "" -> email_regex em = true ->
  c !! "password" = Some (VStr pw) -> pw <> "" ->
  c !! "firstName" = Some (VNum n) -> ge_num n (Fin 10) = true ->
  c !! "middleName" = Some (VStr mn) ->
  Schema.errors t email_regex c = ∅ /\
  Schema.handleSubmit t email_regex c = Schema.Submitted (Schema.strip t c).
Proof.
  intros Hln _ Hem _ Hre Hpw _ Hfn Hn Hmn.
  assert (He : Schema.errors t email_regex c = ∅)
    by exact (schema_accepts t email_regex c n mn ln em pw Hfn Hn Hmn Hln Hem Hre Hpw).
  split; [exact He|].
  unfold Schema.handleSubmit. rewrite He.
  now destruct (decide ((∅ : gmap string Schema.issue) = ∅)).
Qed.

Lemma valid_form_accepted_witness :
  Schema.errors Schema.sample_t Schema.sample_email_regex
    (<["middleName" := VStr "King"]> no_middleName) = ∅.
Proof.
  apply (valid_form_accepted Schema.sample_t Schema.sample_email_regex
           (<["middleName" := VStr "King"]> no_middleName)
           (Fin 10) "King" "Lovelace" "ada@example.org" "hunter22");
    solve [reflexivity | discriminate].
Defined.

(** C4 as stated fails: [no_middleName] meets every condition the claim
    lists, and validation reports an error. *)
Lemma valid_form_without_middleName_rejected :
  (no_middleName !! "lastName" = Some (VStr "Lovelace") /\ "Lovelace" <> "") /\
  (no_middleName !! "email" = Some (VStr "ada@example.org") /\
   "ada@example.org" <> "" /\ Schema.sample_email_regex "ada@example.org" = true) /\
  (no_middleName !! "password" = Some (VStr "hunter22") /\ "hunter22" <> "") /\
  (no_middleName !! "firstName" = Some (VNum (Fin 10)) /\ ge_num (Fin 10) (Fin 10) = true) /\
  Schema.errors Schema.sample_t Schema.sample_email_regex no_middleName <> ∅ /\
  Schema.handleSubmit Schema.sample_t Schema.sample_email_regex no_middleName =
    Schema.Rejected {[ "middleName" := Schema.invalid_type Schema.TyString Schema.TyUndefined ]}.
Proof.
  repeat split; try reflexivity; discriminate.
Qed.

(** C8.  Where the schema asks for a plain string ([lastName],
    [middleName], [password]) the empty string passes: such a property
    equal to "" has no error entry, the "Required" issue is reported for
    an absent value and for nothing else, and an object whose password is
    "" can pass validation and reach the callback of [handleSubmit]. *)
Theorem empty_string_accepted (t : translator) (email_regex : string -> bool)
    (c : Schema.candidate) :
  (forall k, k ∈ ["lastName"; "middleName"; "password"] ->
     (c !! k = Some (VStr "") -> Schema.errors t email_regex c !! k = None) /\
     ((exists i, Schema.errors t email_regex c !! k = Some i /\ Schema.required i = true)
        <-> Schema.get c k = VUndefined)) /\
  (forall n mn ln em,
     c !! "firstName" = Some (VNum n) -> ge_num n (Fin 10) = true ->
     c !! "middleName" = Some (VStr mn) ->
     c !! "lastName" = Some (VStr ln) ->
     c !! "email" = Some (VStr em) -> email_regex em = true ->
     c !! "password" = Some (VStr "") ->
     Schema.handleSubmit t email_regex c = Schema.Submitted (Schema.strip t c)).
Proof.
  split.
  - intros k Hk.
    assert (Hshape : (list_to_map (Schema.shape t) : gmap string Schema.zod) !! k =
                       Some (Schema.z_string [])).
    { rewrite !elem_of_cons, elem_of_nil in Hk.
      destruct Hk as [->|[->|[->|[]]]]; reflexivity. }
    rewrite (plain_string_error t email_regex c k Hshape). split.
    + intros Hc. now rewrite (get_present _ _ _ Hc).
    + destruct (Schema.get c k) as [| | |[]|]; simpl; split;
        solve [ reflexivity | discriminate | intros (i & [= <-] & Hr); discriminate
              | intros (i & Hi & _); discriminate | intros _; eexists; split; reflexivity ].
  - intros n mn ln em Hfn Hn Hmn Hln Hem Hre Hpw.
    unfold Schema.handleSubmit.
    rewrite (schema_accepts t email_regex c n mn ln em "" Hfn Hn Hmn Hln Hem Hre Hpw).
    now destruct (decide ((∅ : gmap string Schema.issue) = ∅)).
Qed.

Lemma empty_string_accepted_witness :
  Schema.errors Schema.sample_t Schema.sample_email_regex empty_strings !! "password" = None /\
  Schema.handleSubmit Schema.sample_t Schema.sample_email_regex empty_strings =
    Schema.Submitted (Schema.strip Schema.sample_t empty_strings).
Proof.
  destruct (empty_string_accepted Schema.sample_t Schema.sample_email_regex empty_strings)
    as [Hfield Hsubmit].
  split.
  - apply (Hfield "password"); [|reflexivity].
    rewrite !elem_of_cons. tauto.
  - apply (Hsubmit (Fin 10) "" "" "ada@example.org"); reflexivity.
Defined.

(** * Properties of the debounced trigger and of the scoring client *)

Lemma truthy_string_true (s : string) : truthy_string s = true <-> s <> "".
Proof. unfold truthy_string. destruct (decide (s = "")); split; congruence. Qed.

Lemma truthy_string_false (s : string) : truthy_string s = false <-> s = "".
Proof. unfold truthy_string. destruct (decide (s = "")); split; congruence. Qed.

Lemma with_timeout_same (s : Page.state) : with_timeout (Page.timeout s) s = s.
Proof. now destruct s. Qed.

(** The key depends on the texts of the inputs and on the debounced
    password, and on nothing else. *)
Lemma key_ext (s s' : Page.state) :
  Page.values s' = Page.values s ->
  Page.debouncedPassword s' = Page.debouncedPassword s ->
  Page.key s' = Page.key s.
Proof.
  intros Hv Hd. unfold Page.key, Page.relatedTerms. now rewrite Hv, Hd.
Qed.

Lemma key_Some (s : Page.state) :
  Page.debouncedPassword s <> "" ->
  Page.key s =
    Some (Page.endpoint, Page.debouncedPassword s, Page.filter_truthy (Page.relatedTerms s)).
Proof.
  intros Hd. unfold Page.key. apply truthy_string_true in Hd. now rewrite Hd.
Qed.

Lemma key_None (s : Page.state) :
  Page.debouncedPassword s = "" -> Page.key s = None.
Proof.
  intros Hd. unfold Page.key. apply truthy_string_false in Hd. now rewrite Hd.
Qed.

Lemma key_inv (s : Page.state) (k : Page.swr_key) :
  Page.key s = Some k ->
  Page.debouncedPassword s <> "" /\
  k = (Page.endpoint, Page.debouncedPassword s, Page.filter_truthy (Page.relatedTerms s)).
Proof.
  unfold Page.key. destruct (truthy_string (Page.debouncedPassword s)) eqn:Ht; [|discriminate].
  intros [= <-]. split; [now apply truthy_string_true | reflexivity].
Qed.

(** SWR asked for a key: at most the request for it goes out; the
    component itself is as it was. *)
Lemma fetch_cases (k : Page.swr_key) (s : Page.state) :
  (k ∈ Page.held (Page.swr s) /\ Page.fetch k s = s) \/
  ((k ∉ Page.held (Page.swr s)) /\
   Page.fetch k s =
     Page.State (Page.values s) (Page.debouncedPassword s) (Page.timeout s) (Page.commits s)
       (Page.requests s ++ [Page.fetcher k])
       (Page.Swr (k :: Page.inflight (Page.swr s)) (k :: Page.held (Page.swr s))
          (Page.retries (Page.swr s)))).
Proof.
  unfold Page.fetch. destruct (decide (k ∈ Page.held (Page.swr s))); [left | right]; now split.
Qed.

Lemma fetch_frame (k : Page.swr_key) (s : Page.state) :
  Page.values (Page.fetch k s) = Page.values s /\
  Page.debouncedPassword (Page.fetch k s) = Page.debouncedPassword s /\
  Page.timeout (Page.fetch k s) = Page.timeout s /\
  Page.commits (Page.fetch k s) = Page.commits s.
Proof.
  destruct (fetch_cases k s) as [[_ ->]|[_ ->]]; repeat split.
Qed.

Lemma revalidate_cases (before : option Page.swr_key) (s : Page.state) :
  Page.revalidate before s = s \/
  (exists k, Page.key s = Some k /\ before <> Some k /\ Page.revalidate before s = Page.fetch k s).
Proof.
  unfold Page.revalidate. destruct (Page.key s) as [k|]; [|now left].
  destruct (decide (before = Some k)); [now left | right]. now exists k.
Qed.

Lemma revalidate_same (s : Page.state) (before : option Page.swr_key) :
  Page.key s = before -> Page.revalidate before s = s.
Proof.
  intros <-. unfold Page.revalidate.
  destruct (Page.key s) as [k|]; [|reflexivity].
  now destruct (decide (Some k = Some k)).
Qed.

Lemma revalidate_frame (b : option Page.swr_key) (s : Page.state) :
  Page.values (Page.revalidate b s) = Page.values s /\
  Page.debouncedPassword (Page.revalidate b s) = Page.debouncedPassword s /\
  Page.timeout (Page.revalidate b s) = Page.timeout s /\
  Page.commits (Page.revalidate b s) = Page.commits s.
Proof.
  destruct (revalidate_cases b s) as [->|(k & _ & _ & ->)];
    [repeat split | apply fetch_frame].
Qed.

(** A render starts the timeout again and leaves the texts, the debounced
    password and the commits as they are. *)
Lemma render_frame (b : option Page.swr_key) (s : Page.state) :
  Page.values (Page.render b s) = Page.values s /\
  Page.debouncedPassword (Page.render b s) = Page.debouncedPassword s /\
  Page.timeout (Page.render b s) = Some Page.delay /\
  Page.commits (Page.render b s) = Page.commits s.
Proof.
  unfold Page.render.
  destruct (revalidate_frame b (with_timeout (Some Page.delay) s)) as (Hv & Hd & Ht & Hc).
  unfold with_timeout in *. simpl in *. now rewrite Hv, Hd, Ht, Hc.
Qed.

(** A render under the key of the render before sends nothing. *)
Lemma render_same (s : Page.state) (b : option Page.swr_key) :
  Page.key s = b -> Page.render b s = with_timeout (Some Page.delay) s.
Proof.
  intros Hk. unfold Page.render. apply revalidate_same.
  rewrite <- Hk. now apply key_ext.
Qed.

Lemma input_state (f : Page.field) (v : string) (s : Page.state) :
  Page.values (Page.input f v s) = <[Page.name f := v]> (Page.values s) /\
  Page.debouncedPassword (Page.input f v s) = Page.debouncedPassword s /\
  Page.timeout (Page.input f v s) = Some Page.delay /\
  Page.commits (Page.input f v s) = Page.commits s.
Proof.
  unfold Page.input.
  destruct (render_frame (Page.key s)
              (Page.State (<[Page.name f := v]> (Page.values s)) (Page.debouncedPassword s)
                 (Page.timeout s) (Page.commits s) (Page.requests s) (Page.swr s)))
    as (Hv & Hd & Ht & Hc).
  now rewrite Hv, Hd, Ht, Hc.
Qed.

(** Editing the password input sends nothing and commits nothing; it
    starts the timeout again. *)
Lemma input_password (s : Page.state) (v : string) :
  Page.input Page.password v s =
    Page.State (<["password" := v]> (Page.values s)) (Page.debouncedPassword s)
      (Some Page.delay) (Page.commits s) (Page.requests s) (Page.swr s).
Proof.
  unfold Page.input. rewrite render_same; [reflexivity|].
  unfold Page.key, Page.relatedTerms, Page.watch_all, Page.watch; simpl.
  now rewrite !lookup_insert_ne by discriminate.
Qed.

Lemma callback_falsy (s : Page.state) :
  truthy (Page.current_password s) = false -> Page.callback s = s.
Proof.
  unfold Page.callback. destruct (Page.current_password s) as [p|]; simpl; [|reflexivity].
  now intros ->.
Qed.

Lemma callback_truthy (s : Page.state) (p : string) :
  Page.current_password s = Some p -> p <> "" ->
  Page.callback s = Page.setDebouncedPassword p s.
Proof.
  intros Hp Hne. unfold Page.callback. rewrite Hp.
  apply truthy_string_true in Hne. now rewrite Hne.
Qed.

Lemma elapse_idle (n : nat) (s : Page.state) :
  Page.timeout s = None -> Page.elapse n s = s.
Proof.
  revert s; induction n as [|n IH]; intros s Hs; [reflexivity|].
  simpl. unfold Page.tick at 1. rewrite Hs. now apply IH.
Qed.

(** Before the timeout runs out, time only shortens it. *)
Lemma elapse_before (n r : nat) (s : Page.state) :
  Page.timeout s = Some r -> (n < r)%nat ->
  Page.elapse n s = with_timeout (Some (r - n)%nat) s.
Proof.
  revert r s; induction n as [|n IH]; intros r s Hs Hn.
  - simpl. rewrite Nat.sub_0_r, <- Hs. symmetry. apply with_timeout_same.
  - simpl. unfold Page.tick at 1. rewrite Hs.
    destruct (decide (r ≤ 1)%nat); [lia|].
    rewrite (IH (r - 1)%nat) by (simpl; first [reflexivity | lia]).
    unfold with_timeout; simpl. do 2 f_equal. lia.
Qed.

(** When it runs out the callback runs, and time goes on. *)
Lemma elapse_fire (n r : nat) (s : Page.state) :
  Page.timeout s = Some r -> (r <= n)%nat -> (0 < n)%nat ->
  Page.elapse n s =
    Page.elapse (n - Nat.max r 1) (Page.callback (with_timeout None s)).
Proof.
  revert r s; induction n as [|n IH]; intros r s Hs Hr Hn; [lia|].
  simpl Page.elapse at 1. unfold Page.tick at 1. rewrite Hs.
  destruct (decide (r ≤ 1)%nat).
  - replace (S n - Nat.max r 1)%nat with n by lia. reflexivity.
  - rewrite (IH (r - 1)%nat) by (simpl; first [reflexivity | lia]).
    replace (n - Nat.max (r - 1) 1)%nat with (S n - Nat.max r 1)%nat by lia.
    reflexivity.
Qed.

(** While the password input is empty or untouched, time changes nothing
    but the timeout. *)
Lemma elapse_falsy (n : nat) (s : Page.state) :
  truthy (Page.current_password s) = false ->
  exists to,
    Page.elapse n s = with_timeout to s /\
    (forall r, Page.timeout s = Some r -> (r <= n)%nat -> (0 < n)%nat -> to = None).
Proof.
  intros Hp.
  destruct (Page.timeout s) as [r|] eqn:Hs.
  - destruct (decide (n < r)%nat) as [Hlt|Hge].
    + exists (Some (r - n)%nat). split; [now apply elapse_before|].
      intros r' [= <-]; lia.
    + destruct n as [|n].
      * exists (Some r). split; [rewrite <- Hs; symmetry; apply with_timeout_same|].
        intros; lia.
      * exists None. split; [|reflexivity].
        rewrite (elapse_fire (S n) r s Hs) by lia.
        rewrite callback_falsy by exact Hp. now apply elapse_idle.
  - exists None. split; [|reflexivity].
    rewrite elapse_idle by exact Hs. rewrite <- Hs. symmetry. apply with_timeout_same.
Qed.

(** C6.  When the timeout of [useDebounce] runs out while the password is
    empty, whatever the component went through before, the callback
    commits nothing: no call to [setDebouncedPassword], no request, the
    debounced password and the key of [useSWR] as they were. *)
Theorem empty_password_suppressed (s : Page.state) (n : nat) :
  truthy (Page.current_password s) = false ->
  Page.commits (Page.elapse n s) = Page.commits s /\
  Page.requests (Page.elapse n s) = Page.requests s /\
  Page.debouncedPassword (Page.elapse n s) = Page.debouncedPassword s /\
  Page.key (Page.elapse n s) = Page.key s /\
  (forall r, Page.timeout s = Some r -> (r <= n)%nat -> (0 < n)%nat ->
     Page.timeout (Page.elapse n s) = None).
Proof.
  intros Hp. destruct (elapse_falsy n s Hp) as (to & -> & Hto).
  repeat split. exact Hto.
Qed.

(** The password is typed and cleared within the delay; the timeout runs
    out on an empty input. *)
Lemma empty_password_suppressed_witness :
  let s := Page.run [Page.Input Page.password "abc"; Page.Elapse 400;
                     Page.Input Page.password ""] Page.mount in
  Page.timeout s = Some 1000%nat /\
  Page.commits (Page.elapse 1000 s) = [] /\
  Page.requests (Page.elapse 1000 s) = [] /\
  Page.timeout (Page.elapse 1000 s) = None.
Proof.
  intros s.
  destruct (empty_password_suppressed s 1000) as (Hc & Hr & _ & _ & Hto);
    [reflexivity|].
  split; [reflexivity|]. split; [exact Hc|]. split; [exact Hr|].
  apply (Hto 1000%nat); [reflexivity | lia | lia].
Defined.

Lemma setDebouncedPassword_state (p : string) (s : Page.state) :
  Page.values (Page.setDebouncedPassword p s) = Page.values s /\
  Page.debouncedPassword (Page.setDebouncedPassword p s) = p /\
  Page.commits (Page.setDebouncedPassword p s) = (Page.commits s ++ [p])%list /\
  Page.timeout (Page.setDebouncedPassword p s) =
    (if decide (p = Page.debouncedPassword s) then Page.timeout s else Some Page.delay).
Proof.
  unfold Page.setDebouncedPassword.
  destruct (decide (p = Page.debouncedPassword s)) as [Heq|Hne]; simpl.
  - now rewrite <- Heq.
  - destruct (render_frame (Page.key s)
                (Page.State (Page.values s) p (Page.timeout s) (Page.commits s ++ [p])
                   (Page.requests s) (Page.swr s))) as (Hv & Hd & Ht & Hc).
    now rewrite Hv, Hd, Ht, Hc.
Qed.


Lemma callback_values (s : Page.state) :
  Page.values (Page.callback s) = Page.values s.
Proof.
  unfold Page.callback. destruct (Page.current_password s) as [p|]; [|reflexivity].
  destruct (truthy_string p); [|reflexivity]. apply setDebouncedPassword_state.
Qed.

Lemma tick_values (s : Page.state) : Page.values (Page.tick s) = Page.values s.
Proof.
  unfold Page.tick. destruct (Page.timeout s) as [r|]; [|reflexivity].
  destruct (decide (r ≤ 1)%nat); [|reflexivity]. now rewrite callback_values.
Qed.

Lemma elapse_values (n : nat) (s : Page.state) :
  Page.values (Page.elapse n s) = Page.values s.
Proof.
  revert s; induction n as [|n IH]; intros s; [reflexivity|].
  simpl. now rewrite IH, tick_values.
Qed.

(** What the network, the timers of SWR and a render for another reason
    leave as it is: the texts, the debounced password and the commits.
    The timeout is untouched or started again. *)
Lemma step_frame (s : Page.state) (e : Page.event) :
  no_edit e -> (forall ms, e <> Page.Elapse ms) ->
  Page.values (Page.step s e) = Page.values s /\
  Page.debouncedPassword (Page.step s e) = Page.debouncedPassword s /\
  Page.commits (Page.step s e) = Page.commits s /\
  (Page.timeout (Page.step s e) = Page.timeout s \/
   Page.timeout (Page.step s e) = Some Page.delay).
Proof.
  intros Hne Hel.
  destruct e as [f v|ms| |k|k|k|k]; simpl in *; [tauto | now destruct (Hel ms) | | | | |].
  - destruct (render_frame (Page.key s) s) as (Hv & Hd & Ht & Hc). auto.
  - unfold Page.respond. repeat case_decide; auto.
    match goal with |- context [Page.render ?b ?x] =>
      destruct (render_frame b x) as (Hv & Hd & Ht & Hc) end. auto.
  - unfold Page.fail. repeat case_decide; auto.
    match goal with |- context [Page.render ?b ?x] =>
      destruct (render_frame b x) as (Hv & Hd & Ht & Hc) end. auto.
  - unfold Page.retry. repeat case_decide; auto.
    + match goal with |- context [Page.render ?b ?x] =>
        destruct (render_frame b x) as (Hv & Hd & Ht & Hc) end.
      match goal with |- context [Page.fetch ?k ?x] =>
        destruct (fetch_frame k x) as (Hv' & Hd' & Ht' & Hc') end.
      rewrite Hv, Hd, Ht, Hc, Hv', Hd', Hc'. auto.
    + match goal with |- context [Page.fetch ?k ?x] =>
        destruct (fetch_frame k x) as (Hv' & Hd' & Ht' & Hc') end.
      rewrite Hv', Hd', Ht', Hc'. auto.
  - unfold Page.expire. case_decide; auto.
Qed.

Lemma step_keeps_empty (p : string) (s : Page.state) (e : Page.event) :
  keeps_password_empty e ->
  Page.current_password s = Some "" /\ Page.debouncedPassword s = p ->
  Page.current_password (Page.step s e) = Some "" /\
  Page.debouncedPassword (Page.step s e) = p.
Proof.
  intros He [Hpw Hd].
  assert (Hframe : no_edit e -> (forall ms, e <> Page.Elapse ms) ->
            Page.current_password (Page.step s e) = Some "" /\
            Page.debouncedPassword (Page.step s e) = p).
  { intros H1 H2. destruct (step_frame s e H1 H2) as (Hv & Hd' & _).
    unfold Page.current_password. now rewrite Hv, Hd'. }
  destruct e as [f v|n| |k|k|k|k]; try (apply Hframe; [exact I | discriminate]).
  - simpl. destruct (input_state f v s) as (Hv & Hd' & _).
    unfold Page.current_password, Page.watch. rewrite Hv, Hd'. split; [|exact Hd].
    destruct f; simpl in He |- *;
      try (rewrite lookup_insert_ne by discriminate; exact Hpw).
    subst v. apply lookup_insert_eq.
  - simpl. destruct (elapse_falsy n s) as (to & -> & _); [now rewrite Hpw|].
    split; assumption.
Qed.

Lemma run_keeps_empty (p : string) (es : list Page.event) (s : Page.state) :
  Forall keeps_password_empty es ->
  Page.current_password s = Some "" /\ Page.debouncedPassword s = p ->
  Page.current_password (Page.run es s) = Some "" /\
  Page.debouncedPassword (Page.run es s) = p.
Proof.
  revert s; induction es as [|e es IH]; intros s Hes Hs; [exact Hs|].
  apply Forall_cons in Hes as [He Hes]. simpl.
  apply IH; [exact Hes|]. now apply step_keeps_empty.
Qed.

(** C9.  Once a non-empty password [p] is committed, clearing the password
    input does not reset it: as long as the input stays empty, whatever
    else is typed and however much time passes, the debounced password is
    still [p], the key of [useSWR] is not [null] and carries [p], and the
    strength meter shows the score of the response for that key. *)
Theorem cleared_password_keeps_snapshot (t : translator)
    (data : Page.swr_key -> option Score.response)
    (s : Page.state) (p : string) (es : list Page.event) :
  Page.debouncedPassword s = p -> p <> "" ->
  Forall keeps_password_empty es ->
  let s' := Page.run (Page.Input Page.password "" :: es) s in
  Page.current_password s' = Some "" /\
  Page.debouncedPassword s' = p /\
  Page.key s' = Some (Page.endpoint, p, Page.filter_truthy (Page.relatedTerms s')) /\
  Page.meter t data s' =
    Score.render t (data (Page.endpoint, p, Page.filter_truthy (Page.relatedTerms s'))).
Proof.
  intros Hd Hp Hes s'.
  destruct (run_keeps_empty p es (Page.input Page.password "" s) Hes) as [Hpw Hd'].
  { rewrite input_password. split; [apply lookup_insert_eq | exact Hd]. }
  change (Page.run es (Page.input Page.password "" s)) with s' in Hpw, Hd'.
  assert (Hkey : Page.key s' =
            Some (Page.endpoint, p, Page.filter_truthy (Page.relatedTerms s'))).
  { unfold Page.key. rewrite Hd'. apply truthy_string_true in Hp. now rewrite Hp. }
  repeat split; try assumption.
  unfold Page.meter. now rewrite Hkey.
Qed.

(** "abc" is committed and scored 3; the input is then cleared and left
    alone for five seconds: the meter still shows "strong". *)
Lemma cleared_password_keeps_snapshot_witness :
  let s := Page.run [Page.Input Page.password "abc"; Page.Elapse 1000] Page.mount in
  let s' := Page.run [Page.Input Page.password ""; Page.Elapse 5000] s in
  Page.debouncedPassword s = "abc" /\
  Page.current_password s' = Some "" /\
  Page.debouncedPassword s' = "abc" /\
  Page.meter Schema.sample_t (fun _ => scored (Fin 3)) s' =
    Some (Score.Meter (Some "cyan") (Some 80) "strong" (hint_lines Schema.sample_t)).
Proof.
  intros s s'.
  destruct (cleared_password_keeps_snapshot Schema.sample_t (fun _ => scored (Fin 3))
              s "abc" [Page.Elapse 5000]) as (Hpw & Hd & _ & Hm).
  - vm_compute; reflexivity.
  - discriminate.
  - apply Forall_cons; split; [exact I | apply Forall_nil_2].
  - split; [vm_compute; reflexivity|]. split; [exact Hpw|]. split; [exact Hd|].
    etransitivity; [exact Hm | reflexivity].
Defined.

(** C1 on the code.  After "abc" is committed the user types on: one more
    character in the password input, then two edits of the email input
    10 ms apart.  Each edit of the email input sends a request at once,
    with the password committed earlier and the email text of that
    instant; no further commit takes place. *)
Theorem related_terms_bypass_debounce :
  let s := Page.run typing_after_commit Page.mount in
  Page.requests s =
    [ Page.Request Page.POST Page.endpoint "abc" [] None;
      Page.Request Page.POST Page.endpoint "abc" ["a"] None;
      Page.Request Page.POST Page.endpoint "abc" ["ab"] None ] /\
  Page.commits s = ["abc"] /\
  Page.current_password s = Some "abcd" /\
  Page.timeout s = Some 1000%nat.
Proof.
  vm_compute. repeat split.
Qed.

(** ** The quiet period after the last edit *)

Lemma repeat_snoc {A} (x : A) (n : nat) :
  (repeat x n ++ [x])%list = repeat x (S n).
Proof. symmetry. apply repeat_cons. Qed.

Lemma since_timeout (p : string) (c0 : list string) (d0 : string) (k : nat)
    (to : option nat) (s : Page.state) :
  since p c0 d0 k s -> since p c0 d0 k (with_timeout to s).
Proof. intros H. exact H. Qed.

(** The callback, run with a non-empty password, makes one more call. *)
Lemma callback_since (p : string) (c0 : list string) (d0 : string) (k : nat)
    (s : Page.state) :
  since p c0 d0 k s -> p <> "" ->
  since p c0 d0 (S k) (Page.callback s).
Proof.
  intros (Hp & Hc & _ & Hd) Hne.
  rewrite (callback_truthy s p Hp Hne).
  destruct (setDebouncedPassword_state p s) as (Hv & Hd' & Hc' & _).
  split; [|split; [|split]].
  - unfold Page.current_password. now rewrite Hv.
  - rewrite Hc', Hc, <- app_assoc. now rewrite repeat_snoc.
  - intros He. now destruct Hne.
  - rewrite Hd'. reflexivity.
Qed.

Lemma tick_since (p : string) (c0 : list string) (d0 : string) (k : nat)
    (s : Page.state) :
  since p c0 d0 k s -> armed p k s ->
  exists k', (k <= k')%nat /\ since p c0 d0 k' (Page.tick s) /\ armed p k' (Page.tick s).
Proof.
  intros Hs Ha. unfold Page.tick.
  destruct (Page.timeout s) as [r|] eqn:Hto.
  - destruct (decide (r ≤ 1)%nat) as [Hr|Hr].
    + destruct (decide (p = "")) as [He|Hne].
      * exists k. split; [lia|].
        rewrite callback_falsy.
        -- split; [exact Hs | right; now left].
        -- destruct Hs as (Hp & _). change (Page.current_password _) with (Page.current_password s).
           rewrite Hp. simpl. now apply truthy_string_false.
      * exists (S k). split; [lia|]. split.
        -- apply callback_since; [exact Hs | exact Hne].
        -- right; right; lia.
    + exists k. split; [lia|]. split; [exact Hs|].
      destruct Ha as [(r' & Hr' & Hle)|Ha]; [|now right].
      left. exists (r - 1)%nat. split; [reflexivity|]. rewrite Hto in Hr'.
      injection Hr' as <-. lia.
  - exists k. split; [lia|]. now split.
Qed.

Lemma elapse_since (n : nat) (p : string) (c0 : list string) (d0 : string) (k : nat)
    (s : Page.state) :
  since p c0 d0 k s -> armed p k s ->
  exists k', (k <= k')%nat /\ since p c0 d0 k' (Page.elapse n s) /\
             armed p k' (Page.elapse n s).
Proof.
  revert k s; induction n as [|n IH]; intros k s Hs Ha.
  - exists k. split; [lia|]. now split.
  - destruct (tick_since p c0 d0 k s Hs Ha) as (k1 & Hk1 & Hs1 & Ha1).
    destruct (IH k1 (Page.tick s) Hs1 Ha1) as (k2 & Hk2 & Hs2 & Ha2).
    exists k2. split; [lia|]. now split.
Qed.

(** Once the delay has passed with nothing else happening, the callback
    has run. *)
Lemma elapse_waited (n : nat) (p : string) (c0 : list string) (d0 : string) (k : nat)
    (s : Page.state) :
  since p c0 d0 k s -> armed p k s -> (Page.delay <= n)%nat ->
  exists k', (k <= k')%nat /\ since p c0 d0 k' (Page.elapse n s) /\
             armed p k' (Page.elapse n s) /\ (p = "" \/ (1 <= k')%nat).
Proof.
  intros Hs Ha Hn.
  destruct (decide (p = "")) as [He|Hne].
  { destruct (elapse_since n p c0 d0 k s Hs Ha) as (k' & Hk & Hs' & Ha').
    exists k'. split; [exact Hk|]. split; [exact Hs'|]. split; [exact Ha'|]. now left. }
  destruct Ha as [(r & Hto & Hr)|[He|Hk]]; [| now destruct Hne |].
  - rewrite (elapse_fire n r s Hto) by (unfold Page.delay in *; lia).
    assert (Hs1 := callback_since p c0 d0 k (with_timeout None s) Hs Hne).
    destruct (elapse_since (n - Nat.max r 1) p c0 d0 (S k) _ Hs1) as (k' & Hk & Hs' & Ha').
    { right; right; lia. }
    exists k'. split; [lia|]. split; [exact Hs'|]. split; [exact Ha'|]. right; lia.
  - destruct (elapse_since n p c0 d0 k s Hs) as (k' & Hk' & Hs' & Ha').
    { right; now right. }
    exists k'. split; [exact Hk'|]. split; [exact Hs'|]. split; [exact Ha'|]. right; lia.
Qed.

Lemma step_since (p : string) (c0 : list string) (d0 : string) (k : nat)
    (s : Page.state) (e : Page.event) :
  no_edit e -> since p c0 d0 k s -> armed p k s ->
  exists k', (k <= k')%nat /\ since p c0 d0 k' (Page.step s e) /\
             armed p k' (Page.step s e) /\ (waits e -> p = "" \/ (1 <= k')%nat).
Proof.
  intros Hne Hs Ha.
  assert (Hcase : (exists ms, e = Page.Elapse ms) \/ (forall ms, e <> Page.Elapse ms))
    by (destruct e; eauto; right; discriminate).
  destruct Hcase as [[ms ->]|Hel].
  - simpl. destruct (decide (Page.delay <= ms)%nat) as [Hw|Hw].
    + destruct (elapse_waited ms p c0 d0 k s Hs Ha Hw) as (k' & Hk & Hs' & Ha' & Hone).
      exists k'. split; [exact Hk|]. split; [exact Hs'|]. split; [exact Ha'|].
      intros _. exact Hone.
    + destruct (elapse_since ms p c0 d0 k s Hs Ha) as (k' & Hk & Hs' & Ha').
      exists k'. split; [exact Hk|]. split; [exact Hs'|]. split; [exact Ha'|].
      intros Hms. now destruct Hw.
  - destruct (step_frame s e Hne Hel) as (Hv & Hd & Hc & Hto).
    exists k. split; [lia|]. split; [|split].
    + destruct Hs as (Hp & Hcs & Hk & Hds). unfold since, Page.current_password.
      now rewrite Hv, Hd, Hc.
    + destruct Hto as [Hto|Hto].
      * destruct Ha as [(r & Hr & Hle)|Ha]; [|now right].
        left. exists r. now rewrite Hto.
      * left. exists Page.delay. split; [exact Hto | lia].
    + destruct e; simpl; try tauto. intros _. now destruct (Hel ms).
Qed.

(** After the last edit, whatever else happens, every call of
    [setDebouncedPassword] passes the password of that edit. *)
Lemma run_since (es : list Page.event) (p : string) (c0 : list string) (d0 : string)
    (k : nat) (s : Page.state) :
  Forall no_edit es -> since p c0 d0 k s -> armed p k s ->
  exists k', (k <= k')%nat /\ since p c0 d0 k' (Page.run es s) /\
             armed p k' (Page.run es s) /\
             (Exists waits es -> p = "" \/ (1 <= k')%nat).
Proof.
  revert k s; induction es as [|e es IH]; intros k s Hes Hs Ha.
  - exists k. split; [lia|]. split; [exact Hs|]. split; [exact Ha|].
    intros Hex. now apply Exists_nil in Hex.
  - apply Forall_cons in Hes as [He Hes].
    destruct (step_since p c0 d0 k s e He Hs Ha) as (k1 & Hk1 & Hs1 & Ha1 & Hw1).
    destruct (IH k1 (Page.step s e) Hes Hs1 Ha1) as (k2 & Hk2 & Hs2 & Ha2 & Hw2).
    exists k2. split; [lia|]. split; [exact Hs2|]. split; [exact Ha2|].
    intros Hex. apply Exists_cons in Hex as [Hw|Hex].
    + destruct (Hw1 Hw) as [He'|Hone]; [now left | right; lia].
    + now apply Hw2.
Qed.

Lemma run_app (es es' : list Page.event) (s : Page.state) :
  Page.run (es ++ es') s = Page.run es' (Page.run es s).
Proof. apply foldl_app. Qed.

Lemma last_cons_default {A} (l : list A) (a d : A) :
  List.last (a :: l) d = List.last l a.
Proof.
  revert a d; induction l as [|b l IH]; intros a d; [reflexivity|].
  change (List.last (a :: b :: l) d) with (List.last (b :: l) d).
  now rewrite !IH.
Qed.








(** ** What is kept through every run *)

Lemma elem_of_filter_truthy (x : string) (terms : list (option string)) :
  x ∈ Page.filter_truthy terms <-> x <> "" /\ Some x ∈ terms.
Proof.
  unfold Page.filter_truthy. rewrite list_elem_of_omap. split.
  - intros (e & He & Hx). destruct e as [y|]; simpl in Hx; [|discriminate].
    destruct (truthy_string y) eqn:Hy; [|discriminate].
    injection Hx as ->. apply truthy_string_true in Hy. now split.
  - intros [Hne Hin]. exists (Some x). split; [exact Hin|]. simpl.
    apply truthy_string_true in Hne. now rewrite Hne.
Qed.

Lemma last_elem_of {A} (l : list A) (d : A) :
  List.last l d <> d -> List.last l d ∈ l.
Proof.
  induction l as [|a l IH]; [simpl; intros H; now destruct H|].
  destruct l as [|b l]; [intros _; apply list_elem_of_here|].
  intros Hne. apply list_elem_of_further. apply IH. exact Hne.
Qed.

Lemma elem_of_without (k x : Page.swr_key) (keys : list Page.swr_key) :
  x ∈ Page.without k keys -> x ∈ keys.
Proof. unfold Page.without. rewrite list_elem_of_filter. tauto. Qed.



Lemma key_sound (s : Page.state) (k : Page.swr_key) :
  consistent s -> Page.key s = Some k -> sound_key s k.
Proof.
  intros (Hd & _ & _) Hk. destruct (key_inv s k Hk) as [Hne ->].
  unfold sound_key; cbn [fst snd]. split; [reflexivity|]. split; [|split; [exact Hne|]].
  - rewrite Hd. apply last_elem_of. now rewrite <- Hd.
  - rewrite elem_of_filter_truthy. tauto.
Qed.

Lemma fetcher_sound (s : Page.state) (k : Page.swr_key) :
  sound_key s k ->
  scoring_request (Page.fetcher k) /\ Page.body_password (Page.fetcher k) ∈ Page.commits s.
Proof.
  destruct k as [[u pw] terms]. intros (Hu & Hin & Hne & Hterms). simpl in *.
  subst u. repeat split; assumption.
Qed.

(** A state that differs in what soundness does not look at, or holds
    fewer keys, is sound as well. *)
Lemma sound_of (s s' : Page.state) :
  Page.commits s' = Page.commits s ->
  Page.debouncedPassword s' = Page.debouncedPassword s ->
  Page.requests s' = Page.requests s ->
  (forall k, k ∈ (Page.inflight (Page.swr s') ++ Page.held (Page.swr s') ++
                  Page.retries (Page.swr s'))%list ->
             k ∈ (Page.inflight (Page.swr s) ++ Page.held (Page.swr s) ++
                  Page.retries (Page.swr s))%list) ->
  sound s -> sound s'.
Proof.
  intros Hc Hd Hr Hk ((Hd0 & Hne & Hreq) & Hshape & Hkeys).
  unfold sound, consistent, sound_key. rewrite Hc, Hd, Hr.
  repeat split; try assumption.
  apply Forall_forall. intros k Hin. apply Hk in Hin.
  rewrite Forall_forall in Hkeys. exact (Hkeys k Hin).
Qed.

Lemma fetch_sound (k : Page.swr_key) (s : Page.state) :
  sound s -> sound_key s k -> sound (Page.fetch k s).
Proof.
  intros Hs Hk. destruct (fetch_cases k s) as [[_ ->]|[_ ->]]; [exact Hs|].
  destruct Hs as ((Hd0 & Hne & Hreq) & Hshape & Hkeys).
  destruct (fetcher_sound s k Hk) as [Hsh Hin].
  unfold sound, consistent; simpl. repeat split; try assumption.
  - apply Forall_app. split; [exact Hreq|]. now apply Forall_singleton.
  - apply Forall_app. split; [exact Hshape|]. now apply Forall_singleton.
  - apply Forall_cons. split; [exact Hk|].
    apply Forall_app in Hkeys as [Hi Hkeys]. apply Forall_app in Hkeys as [Hh Hr].
    apply Forall_app. split; [exact Hi|].
    apply Forall_cons. split; [exact Hk|]. apply Forall_app. now split.
Qed.

Lemma revalidate_sound (b : option Page.swr_key) (s : Page.state) :
  sound s -> sound (Page.revalidate b s).
Proof.
  intros Hs. destruct (revalidate_cases b s) as [->|(k & Hk & _ & ->)]; [exact Hs|].
  apply fetch_sound; [exact Hs|]. apply key_sound; [apply Hs | exact Hk].
Qed.

Lemma render_sound (b : option Page.swr_key) (s : Page.state) :
  sound s -> sound (Page.render b s).
Proof.
  intros Hs. unfold Page.render. apply revalidate_sound.
  now apply (sound_of s).
Qed.

(** A call of [setDebouncedPassword] with a non-empty password keeps the
    component sound, whether React drops the update or not. *)
Lemma commit_sound (p : string) (s : Page.state) :
  p <> "" -> sound s -> sound (Page.setDebouncedPassword p s).
Proof.
  intros Hp ((Hd0 & Hne & Hreq) & Hshape & Hkeys).
  assert (Hnew : forall to, sound
            (Page.State (Page.values s) p to (Page.commits s ++ [p]) (Page.requests s)
               (Page.swr s))).
  { intros to. unfold sound, consistent, sound_key; simpl.
    split; [split; [|split]|split].
    - now rewrite last_last.
    - apply Forall_app. split; [exact Hne|]. now apply Forall_singleton.
    - eapply Forall_impl; [exact Hreq|]. intros r Hr. apply elem_of_app. now left.
    - exact Hshape.
    - eapply Forall_impl; [exact Hkeys|]. intros k (H1 & H2 & H3 & H4).
      repeat split; try assumption. apply elem_of_app. now left. }
  unfold Page.setDebouncedPassword.
  destruct (decide (p = Page.debouncedPassword s)) as [Heq|Hdiff].
  - rewrite <- Heq. apply Hnew.
  - apply render_sound, Hnew.
Qed.

Lemma tick_sound (s : Page.state) : sound s -> sound (Page.tick s).
Proof.
  intros Hs. unfold Page.tick. destruct (Page.timeout s) as [r|]; [|exact Hs].
  destruct (decide (r ≤ 1)%nat); [|now apply (sound_of s)].
  assert (Hs0 : sound (with_timeout None s)) by now apply (sound_of s).
  change (Page.State _ _ None _ _ _) with (with_timeout None s).
  unfold Page.callback.
  destruct (Page.current_password (with_timeout None s)) as [p|]; [|exact Hs0].
  destruct (truthy_string p) eqn:Hp; [|exact Hs0].
  apply commit_sound; [now apply truthy_string_true | exact Hs0].
Qed.

Lemma step_sound (s : Page.state) (e : Page.event) :
  sound s -> sound (Page.step s e).
Proof.
  intros Hs. destruct e as [f v|n| |k|k|k|k]; simpl.
  - unfold Page.input. apply render_sound. now apply (sound_of s).
  - revert s Hs; induction n as [|n IH]; intros s Hs; [exact Hs|].
    simpl. apply IH. now apply tick_sound.
  - now apply render_sound.
  - unfold Page.respond. destruct (decide (k ∈ Page.inflight (Page.swr s))); [|exact Hs].
    assert (Hs' : sound
              (Page.State (Page.values s) (Page.debouncedPassword s) (Page.timeout s)
                 (Page.commits s) (Page.requests s)
                 (Page.Swr (Page.without k (Page.inflight (Page.swr s)))
                    (Page.held (Page.swr s)) (Page.retries (Page.swr s))))).
    { apply (sound_of s); try reflexivity; [|exact Hs]. simpl. intros x.
      rewrite !elem_of_app. intros [Hx|Hx]; [left; now apply elem_of_without in Hx | now right]. }
    destruct (decide (Page.key s = Some k)); [now apply render_sound | exact Hs'].
  - unfold Page.fail. destruct (decide (k ∈ Page.inflight (Page.swr s))) as [Hin|]; [|exact Hs].
    destruct (decide (Page.key s = Some k)).
    + apply render_sound. apply (sound_of s); try reflexivity; [|exact Hs]. simpl. intros x.
      rewrite !elem_of_app, elem_of_cons.
      intros [Hx|[Hx|[->|Hx]]]; auto.
      * left; now apply elem_of_without in Hx.
      * right; left; now apply elem_of_without in Hx.
    + apply (sound_of s); try reflexivity; [|exact Hs]. simpl. intros x.
      rewrite !elem_of_app.
      intros [Hx|[Hx|Hx]]; auto.
      * left; now apply elem_of_without in Hx.
      * right; left; now apply elem_of_without in Hx.
  - unfold Page.retry. destruct (decide (k ∈ Page.retries (Page.swr s))) as [Hin|]; [|exact Hs].
    assert (Hs' : sound
              (Page.State (Page.values s) (Page.debouncedPassword s) (Page.timeout s)
                 (Page.commits s) (Page.requests s)
                 (Page.Swr (Page.inflight (Page.swr s)) (Page.held (Page.swr s))
                    (Page.without k (Page.retries (Page.swr s)))))).
    { apply (sound_of s); try reflexivity; [|exact Hs]. simpl. intros x.
      rewrite !elem_of_app. intros [Hx|[Hx|Hx]]; auto.
      right; right; now apply elem_of_without in Hx. }
    assert (Hk : sound_key s k).
    { destruct Hs as (_ & _ & Hkeys). rewrite Forall_forall in Hkeys. apply Hkeys.
      rewrite !elem_of_app. auto. }
    destruct (decide (k ∈ Page.held (Page.swr s))); [exact Hs'|].
    destruct (decide (Page.key s = Some k));
      [apply render_sound|]; now apply fetch_sound.
  - unfold Page.expire.
    destruct (decide (k ∈ Page.held (Page.swr s) /\ k ∉ Page.inflight (Page.swr s)));
      [|exact Hs].
    apply (sound_of s); try reflexivity; [|exact Hs]. simpl. intros x.
    rewrite !elem_of_app. intros [Hx|[Hx|Hx]]; auto.
    right; left; now apply elem_of_without in Hx.
Qed.

Lemma mount_sound : sound Page.mount.
Proof.
  unfold sound, consistent; simpl. repeat split; apply Forall_nil_2.
Qed.

Lemma run_sound (es : list Page.event) (s : Page.state) :
  sound s -> sound (Page.run es s).
Proof.
  revert s; induction es as [|e es IH]; intros s Hs; [exact Hs|].
  simpl. apply IH. now apply step_sound.
Qed.

(** X14.  After any run from the mounted page the debounced password is the
    last password committed, no committed password is empty and every
    request sent carries a password that was committed.  So nothing is
    sent before the first commit, and from the first commit on the key
    of [useSWR] is never [null] again. *)
Theorem run_consistent (es : list Page.event) :
  let s := Page.run es Page.mount in
  consistent s /\
  (Page.commits s = [] ->
     Page.requests s = [] /\ Page.debouncedPassword s = "" /\ Page.key s = None) /\
  (Page.commits s <> [] -> Page.key s <> None).
Proof.
  intros s.
  assert (Hs : consistent s) by apply (run_sound es Page.mount mount_sound).
  split; [exact Hs|]. destruct Hs as (Hd & Hne & Hr). split.
  - intros Hnil. rewrite Hnil in Hd, Hr. simpl in Hd.
    split; [|split; [exact Hd | now apply key_None]].
    destruct (Page.requests s) as [|r rs]; [reflexivity|].
    apply Forall_cons in Hr as [Hin _]. now apply elem_of_nil in Hin.
  - intros Hsome. rewrite key_Some; [discriminate|].
    rewrite Hd. destruct (Page.commits s) as [|p l _] using rev_ind; [congruence|].
    rewrite last_last. apply Forall_app in Hne as [_ Hp].
    rewrite Forall_singleton in Hp. exact Hp.
Qed.

(** Typing in the related inputs alone, with the password left empty,
    sends nothing, however long it lasts. *)
Lemma run_consistent_witness :
  Page.requests
    (Page.run [Page.Input Page.email "a@b.co"; Page.Elapse 3000;
               Page.Input Page.password ""; Page.Elapse 3000] Page.mount) = [].
Proof.
  pose proof (run_consistent [Page.Input Page.email "a@b.co"; Page.Elapse 3000;
                              Page.Input Page.password ""; Page.Elapse 3000])
    as (_ & Hnone & _).
  apply Hnone. vm_compute. reflexivity.
Defined.

(** ** The requests an event sends *)













(** * Further properties of the validation schema *)

Lemma get_insert_eq (c : Schema.candidate) (k : string) (v : value) :
  Schema.get (<[k := v]> c) k = v.
Proof. unfold Schema.get. now rewrite lookup_insert_eq. Qed.

Lemma get_insert_ne (c : Schema.candidate) (k k' : string) (v : value) :
  k <> k' -> Schema.get (<[k := v]> c) k' = Schema.get c k'.
Proof. intros Hk. unfold Schema.get. now rewrite lookup_insert_ne. Qed.

Lemma get_defined (c : Schema.candidate) (k : string) (v : value) :
  Schema.get c k = v -> v <> VUndefined -> c !! k = Some v.
Proof.
  unfold Schema.get. destruct (c !! k) as [w|]; simpl; congruence.
Qed.

(** The error entry of a property depends on the value of that property
    and on nothing else in the object. *)
Lemma errors_ext (t : translator) (email_regex : string -> bool)
    (c c' : Schema.candidate) (k : string) :
  Schema.get c k = Schema.get c' k ->
  Schema.errors t email_regex c !! k = Schema.errors t email_regex c' !! k.
Proof. intros Hg. now rewrite !errors_lookup, Hg. Qed.

Lemma lt_ge_cases (n m : number) :
  n <> NaN -> m <> NaN ->
  (lt_num n m = true /\ ge_num n m = false) \/ (lt_num n m = false /\ ge_num n m = true).
Proof.
  destruct n as [a| |[]], m as [b| |[]]; simpl; try congruence; intros _ _; auto.
  destruct (Qle_bool b a); auto.
Qed.

Lemma firstName_ok (t : translator) (email_regex : string -> bool) (c : Schema.candidate) :
  Schema.errors t email_regex c !! "firstName" = None <->
  exists n, Schema.get c "firstName" = VNum n /\ ge_num n (Fin 10) = true.
Proof.
  rewrite errors_lookup, shape_firstName. split.
  - destruct (Schema.get c "firstName") as [| | |n|]; try discriminate.
    assert (Hcases : n = NaN \/ n <> NaN) by (destruct n; auto; right; discriminate).
    destruct Hcases as [->|Hn]; [discriminate|].
    destruct (lt_ge_cases n (Fin 10) Hn) as [[Hlt _]|[Hlt Hge]]; [discriminate| |].
    + destruct n; [| congruence |];
        cbn [Schema.parse omap list_omap Schema.run_number_check];
        rewrite Hlt; discriminate.
    + intros _. now exists n.
  - intros (n & -> & Hn). assert (Hlt := ge_not_lt _ _ Hn).
    destruct n as [q| |neg]; [| discriminate |];
      cbn [Schema.parse omap list_omap Schema.run_number_check]; now rewrite Hlt.
Qed.

Lemma plain_string_ok (t : translator) (email_regex : string -> bool)
    (c : Schema.candidate) (k : string) :
  (list_to_map (Schema.shape t) : gmap string Schema.zod) !! k = Some (Schema.z_string []) ->
  Schema.errors t email_regex c !! k = None <-> exists s, Schema.get c k = VStr s.
Proof.
  intros Hk. rewrite (plain_string_error t email_regex c k Hk).
  destruct (Schema.get c k) as [| | |[]|s]; split;
    solve [ discriminate | intros [s' Hs]; discriminate | intros _; now exists s | reflexivity ].
Qed.

Lemma email_entry (t : translator) (email_regex : string -> bool) (c : Schema.candidate) :
  Schema.errors t email_regex c !! "email" =
    match Schema.get c "email" with
    | VStr s => if email_regex s then None
                else Some (Schema.invalid_email (t "email_invalid" []))
    | v => Some (Schema.invalid_type Schema.TyString (Schema.getParsedType v))
    end.
Proof.
  rewrite errors_lookup, shape_email.
  destruct (Schema.get c "email") as [| | |[]|s]; try reflexivity.
  simpl. now destruct (email_regex s).
Qed.

Lemma email_ok (t : translator) (email_regex : string -> bool) (c : Schema.candidate) :
  Schema.errors t email_regex c !! "email" = None <->
  exists s, Schema.get c "email" = VStr s /\ email_regex s = true.
Proof.
  rewrite email_entry.
  destruct (Schema.get c "email") as [| | |[]|s]; split;
    try solve [ discriminate | intros (s' & Hs & _); discriminate ].
  - destruct (email_regex s) eqn:Hre; [|discriminate]. intros _. now exists s.
  - intros (s' & [= <-] & ->). reflexivity.
Qed.

Lemma handleSubmit_cases (t : translator) (email_regex : string -> bool)
    (c : Schema.candidate) :
  (Schema.errors t email_regex c = ∅ /\
   Schema.handleSubmit t email_regex c = Schema.Submitted (Schema.strip t c)) \/
  (Schema.errors t email_regex c <> ∅ /\
   Schema.handleSubmit t email_regex c = Schema.Rejected (Schema.errors t email_regex c)).
Proof.
  unfold Schema.handleSubmit.
  destruct (decide (Schema.errors t email_regex c = ∅)); [left | right]; now split.
Qed.

(** X1.  The objects the schema accepts are exactly those whose first name is
    a number at least 10, whose middle name, last name and password are
    strings and whose email is a string the address pattern matches; they
    are the ones [handleSubmit] hands to the callback, and any other
    object is rejected with its errors. *)
Theorem schema_valid_iff (t : translator) (email_regex : string -> bool)
    (c : Schema.candidate) :
  let valid :=
    (exists n, Schema.get c "firstName" = VNum n /\ ge_num n (Fin 10) = true) /\
    (exists s, Schema.get c "middleName" = VStr s) /\
    (exists s, Schema.get c "lastName" = VStr s) /\
    (exists s, Schema.get c "email" = VStr s /\ email_regex s = true) /\
    (exists s, Schema.get c "password" = VStr s) in
  (Schema.errors t email_regex c = ∅ <-> valid) /\
  (Schema.handleSubmit t email_regex c = Schema.Submitted (Schema.strip t c) <-> valid) /\
  (~ valid ->
   Schema.handleSubmit t email_regex c = Schema.Rejected (Schema.errors t email_regex c)).
Proof.
  intros valid.
  assert (Hiff : Schema.errors t email_regex c = ∅ <-> valid).
  { unfold valid.
    rewrite <- (firstName_ok t email_regex c), <- (email_ok t email_regex c).
    rewrite <- (plain_string_ok t email_regex c "middleName" (shape_middleName t)).
    rewrite <- (plain_string_ok t email_regex c "lastName" (shape_lastName t)).
    rewrite <- (plain_string_ok t email_regex c "password" (shape_password t)).
    split.
    - intros ->. rewrite !lookup_empty. repeat split.
    - intros (Hf & Hm & Hl & He & Hp). apply map_eq; intros k.
      rewrite lookup_empty.
      destruct (decide (k ∈ field_names)) as [Hin|Hout].
      + unfold field_names in Hin. rewrite !elem_of_cons, elem_of_nil in Hin.
        destruct Hin as [->|[->|[->|[->|[->|[]]]]]]; assumption.
      + rewrite errors_lookup, shape_other; [reflexivity | exact Hout]. }
  split; [exact Hiff|].
  destruct (handleSubmit_cases t email_regex c) as [[He ->]|[He ->]]; split.
  - split; [intros _; apply Hiff, He | reflexivity].
  - intros Hn. exfalso. apply Hn, Hiff, He.
  - split; [discriminate | intros Hv; exfalso; apply He, Hiff, Hv].
  - reflexivity.
Qed.

(** The object of the C4 counterexample is rejected; with a middle name
    it is valid. *)
Lemma schema_valid_iff_witness :
  Schema.handleSubmit Schema.sample_t Schema.sample_email_regex no_middleName =
    Schema.Rejected (Schema.errors Schema.sample_t Schema.sample_email_regex no_middleName).
Proof.
  destruct (schema_valid_iff Schema.sample_t Schema.sample_email_regex no_middleName)
    as (_ & _ & Hrej).
  apply Hrej. intros (_ & [s Hs] & _). vm_compute in Hs. discriminate.
Defined.

Lemma error_entry_independent_aux (t : translator) (email_regex : string -> bool)
    (c : Schema.candidate) (k k' : string) (v : value) :
  k <> k' ->
  Schema.errors t email_regex (<[k := v]> c) !! k' = Schema.errors t email_regex c !! k'.
Proof.
  intros Hk. apply errors_ext. now apply get_insert_ne.
Qed.

(** X2.  Validation is local to each property: setting or removing another
    property leaves the error entry of a property as it is. *)
Theorem error_entry_independent (t : translator) (email_regex : string -> bool)
    (c : Schema.candidate) (k k' : string) (v : value) :
  k <> k' ->
  Schema.errors t email_regex (<[k' := v]> c) !! k = Schema.errors t email_regex c !! k /\
  Schema.errors t email_regex (delete k' c) !! k = Schema.errors t email_regex c !! k.
Proof.
  intros Hk. split; apply errors_ext; unfold Schema.get.
  - now rewrite lookup_insert_ne by congruence.
  - now rewrite lookup_delete_ne by congruence.
Qed.

(** Filling in the middle name does not clear the error of another
    property, and does not raise one. *)
Lemma error_entry_independent_witness :
  Schema.errors Schema.sample_t Schema.sample_email_regex
    (<["middleName" := VStr "King"]> (<["email" := VStr "ada"]> no_middleName)) !! "email" =
  Schema.errors Schema.sample_t Schema.sample_email_regex
    (<["email" := VStr "ada"]> no_middleName) !! "email".
Proof.
  apply (error_entry_independent Schema.sample_t Schema.sample_email_regex
           (<["email" := VStr "ada"]> no_middleName) "email" "middleName" (VStr "King")).
  discriminate.
Defined.

Lemma errors_dom (t : translator) (email_regex : string -> bool)
    (c : Schema.candidate) (k : string) :
  is_Some (Schema.errors t email_regex c !! k) -> k ∈ field_names.
Proof.
  intros Hk. destruct (decide (k ∈ field_names)) as [|Hout]; [assumption|].
  rewrite errors_lookup, (shape_other t k Hout) in Hk. now destruct Hk.
Qed.

Lemma strip_lookup (t : translator) (c : Schema.candidate) (k : string) :
  Schema.strip t c !! k = if decide (k ∈ field_names) then c !! k else None.
Proof.
  unfold Schema.strip. rewrite map_lookup_filter.
  destruct (c !! k) as [v|]; simpl; [|now destruct (decide _)].
  change ((Schema.shape t).*1) with field_names.
  destruct (decide (k ∈ field_names)).
  - now rewrite option_guard_True.
  - now rewrite option_guard_False.
Qed.

(** X3.  A property the schema does not name plays no part: it changes no
    error, it is not part of what the callback receives, and an error
    entry is only ever reported for one of the five properties.  What the
    callback receives validates like the object it comes from. *)
Theorem unknown_properties_ignored (t : translator) (email_regex : string -> bool)
    (c : Schema.candidate) (k : string) (v : value) :
  k ∉ field_names ->
  Schema.errors t email_regex (<[k := v]> c) = Schema.errors t email_regex c /\
  Schema.errors t email_regex c !! k = None /\
  Schema.strip t (<[k := v]> c) = Schema.strip t c /\
  Schema.strip t c !! k = None /\
  Schema.strip t (Schema.strip t c) = Schema.strip t c /\
  Schema.errors t email_regex (Schema.strip t c) = Schema.errors t email_regex c.
Proof.
  intros Hk. split; [|split; [|split; [|split; [|split]]]].
  - apply map_eq; intros k'.
    destruct (decide (k = k')) as [<-|Hne].
    + rewrite !errors_lookup, (shape_other t k Hk). reflexivity.
    + now apply error_entry_independent_aux.
  - rewrite errors_lookup, (shape_other t k Hk). reflexivity.
  - apply map_eq; intros k'. rewrite !strip_lookup.
    destruct (decide (k' ∈ field_names)) as [Hin|]; [|reflexivity].
    apply lookup_insert_ne. congruence.
  - rewrite strip_lookup. now destruct (decide (k ∈ field_names)).
  - apply map_eq; intros k'. rewrite !strip_lookup.
    now destruct (decide (k' ∈ field_names)).
  - apply map_eq; intros k'.
    destruct (decide (k' ∈ field_names)) as [Hin|Hout].
    + apply errors_ext. unfold Schema.get. rewrite strip_lookup.
      now destruct (decide (k' ∈ field_names)).
    + now rewrite !errors_lookup, (shape_other t k' Hout).
Qed.

(** A property named "nickname" is ignored and dropped. *)
Lemma unknown_properties_ignored_witness :
  Schema.errors Schema.sample_t Schema.sample_email_regex
    (<["nickname" := VStr "ada"]> empty_strings) =
  Schema.errors Schema.sample_t Schema.sample_email_regex empty_strings /\
  Schema.strip Schema.sample_t (<["nickname" := VStr "ada"]> empty_strings) =
  Schema.strip Schema.sample_t empty_strings.
Proof.
  destruct (unknown_properties_ignored Schema.sample_t Schema.sample_email_regex
              empty_strings "nickname" (VStr "ada")) as (He & _ & Hs & _).
  - unfold field_names. rewrite !elem_of_cons, elem_of_nil.
    intros [H|[H|[H|[H|[H|[]]]]]]; discriminate.
  - split; assumption.
Defined.

(** X4.  The first name must be a number and at least 10, 10 included: a
    number at least 10 passes, a number below 10 is "too small", and NaN
    is not taken for a number; every number falls in exactly one of the
    three cases. *)
Theorem firstName_bound (t : translator) (email_regex : string -> bool)
    (c : Schema.candidate) (n : number) :
  Schema.get c "firstName" = VNum n ->
  (ge_num n (Fin 10) = true ->
     Schema.errors t email_regex c !! "firstName" = None) /\
  (lt_num n (Fin 10) = true ->
     Schema.errors t email_regex c !! "firstName" = Some (Schema.too_small 10)) /\
  (n = NaN ->
     Schema.errors t email_regex c !! "firstName" =
       Some (Schema.invalid_type Schema.TyNumber Schema.TyNan)) /\
  ((n = NaN /\ ge_num n (Fin 10) = false /\ lt_num n (Fin 10) = false) \/
   (n <> NaN /\ ge_num n (Fin 10) = true /\ lt_num n (Fin 10) = false) \/
   (n <> NaN /\ ge_num n (Fin 10) = false /\ lt_num n (Fin 10) = true)).
Proof.
  intros Hn. split; [|split; [|split]].
  - intros Hge. apply firstName_ok. now exists n.
  - intros Hlt. rewrite errors_lookup, shape_firstName, Hn.
    destruct n as [q| |neg]; [| discriminate |];
      cbn [Schema.parse omap list_omap Schema.run_number_check head];
      now rewrite Hlt.
  - intros ->. now rewrite errors_lookup, shape_firstName, Hn.
  - destruct n as [q| |neg]; [|now left|].
    + destruct (lt_ge_cases (Fin q) (Fin 10)) as [[Hlt Hge]|[Hlt Hge]];
        try discriminate; [right; right | right; left]; repeat split; auto; discriminate.
    + destruct (lt_ge_cases (Infinity neg) (Fin 10)) as [[Hlt Hge]|[Hlt Hge]];
        try discriminate; [right; right | right; left]; repeat split; auto; discriminate.
Qed.

(** 10 passes, 9.99 does not. *)
Lemma firstName_bound_witness :
  Schema.errors Schema.sample_t Schema.sample_email_regex
    (<["firstName" := VNum (Fin 10)]> empty_strings) !! "firstName" = None /\
  Schema.errors Schema.sample_t Schema.sample_email_regex
    (<["firstName" := VNum (Fin (999 # 100))]> empty_strings) !! "firstName" =
    Some (Schema.too_small 10).
Proof.
  split.
  - apply (firstName_bound Schema.sample_t Schema.sample_email_regex
             (<["firstName" := VNum (Fin 10)]> empty_strings) (Fin 10));
      reflexivity.
  - apply (firstName_bound Schema.sample_t Schema.sample_email_regex
             (<["firstName" := VNum (Fin (999 # 100))]> empty_strings) (Fin (999 # 100)));
      reflexivity.
Defined.

(** X5.  The email is checked as a string first and against the address
    pattern second: a string the pattern rejects gets the translated
    message [email_invalid], one it matches gets no error, and a value
    that is no string (an absent one too) gets the type error, not the
    translated message. *)
Theorem email_error (t : translator) (email_regex : string -> bool)
    (c : Schema.candidate) :
  (forall s, Schema.get c "email" = VStr s -> email_regex s = false ->
     Schema.errors t email_regex c !! "email" =
       Some (Schema.invalid_email (t "email_invalid" []))) /\
  (forall s, Schema.get c "email" = VStr s -> email_regex s = true ->
     Schema.errors t email_regex c !! "email" = None) /\
  (forall v, Schema.get c "email" = v -> (forall s, v <> VStr s) ->
     Schema.errors t email_regex c !! "email" =
       Some (Schema.invalid_type Schema.TyString (Schema.getParsedType v))).
Proof.
  rewrite email_entry. split; [|split].
  - intros s -> ->. reflexivity.
  - intros s -> ->. reflexivity.
  - intros v -> Hv. destruct v as [| | |[]|s]; try reflexivity.
    now destruct (Hv s).
Qed.

Lemma email_error_witness :
  Schema.errors Schema.sample_t Schema.sample_email_regex
    (<["email" := VStr "ada"]> empty_strings) !! "email" =
    Some (Schema.invalid_email "email_invalid") /\
  Schema.errors Schema.sample_t Schema.sample_email_regex
    (delete "email" empty_strings) !! "email" =
    Some (Schema.invalid_type Schema.TyString Schema.TyUndefined).
Proof.
  destruct (email_error Schema.sample_t Schema.sample_email_regex
              (<["email" := VStr "ada"]> empty_strings)) as (Hbad & _).
  destruct (email_error Schema.sample_t Schema.sample_email_regex
              (delete "email" empty_strings)) as (_ & _ & Hty).
  split.
  - apply (Hbad "ada"); reflexivity.
  - apply (Hty VUndefined); [reflexivity | discriminate].
Defined.

Lemma required_entry (t : translator) (email_regex : string -> bool)
    (c : Schema.candidate) (k : string) :
  k ∈ field_names -> Schema.get c k = VUndefined ->
  exists ty, Schema.errors t email_regex c !! k =
               Some (Schema.invalid_type ty Schema.TyUndefined).
Proof.
  intros Hin Hu. unfold field_names in Hin.
  rewrite !elem_of_cons, elem_of_nil in Hin.
  destruct Hin as [->|[->|[->|[->|[->|[]]]]]].
  - exists Schema.TyNumber. now rewrite errors_lookup, shape_firstName, Hu.
  - exists Schema.TyString.
    now rewrite (plain_string_error t email_regex c _ (shape_middleName t)), Hu.
  - exists Schema.TyString.
    now rewrite (plain_string_error t email_regex c _ (shape_lastName t)), Hu.
  - exists Schema.TyString. now rewrite email_entry, Hu.
  - exists Schema.TyString.
    now rewrite (plain_string_error t email_regex c _ (shape_password t)), Hu.
Qed.

(** X6.  None of the five properties is optional: one that is absent, or
    present with the value [undefined], gets the "Required" issue, and
    the two cases give the same error object. *)
Theorem every_property_required (t : translator) (email_regex : string -> bool)
    (c : Schema.candidate) (k : string) :
  k ∈ field_names ->
  (exists i, Schema.errors t email_regex (delete k c) !! k = Some i /\
             Schema.required i = true) /\
  Schema.errors t email_regex (<[k := VUndefined]> c) =
    Schema.errors t email_regex (delete k c) /\
  Schema.handleSubmit t email_regex (delete k c) =
    Schema.Rejected (Schema.errors t email_regex (delete k c)).
Proof.
  intros Hin.
  assert (Hreq : exists i, Schema.errors t email_regex (delete k c) !! k = Some i /\
                           Schema.required i = true).
  { destruct (required_entry t email_regex (delete k c) k Hin) as [ty Hty].
    - unfold Schema.get. now rewrite lookup_delete_eq.
    - eexists. split; [exact Hty | reflexivity]. }
  split; [exact Hreq|]. split.
  - apply map_eq; intros k'. apply errors_ext. unfold Schema.get.
    destruct (decide (k = k')) as [<-|Hne].
    + now rewrite lookup_insert_eq, lookup_delete_eq.
    + now rewrite lookup_insert_ne, lookup_delete_ne by congruence.
  - destruct (handleSubmit_cases t email_regex (delete k c)) as [[He _]|[_ ->]];
      [|reflexivity].
    destruct Hreq as (i & Hi & _). rewrite He, lookup_empty in Hi. discriminate.
Qed.

Lemma every_property_required_witness :
  Schema.handleSubmit Schema.sample_t Schema.sample_email_regex
    (delete "password" empty_strings) =
  Schema.Rejected
    (Schema.errors Schema.sample_t Schema.sample_email_regex
       (delete "password" empty_strings)).
Proof.
  apply (every_property_required Schema.sample_t Schema.sample_email_regex
           empty_strings "password").
  unfold field_names. rewrite !elem_of_cons. tauto.
Defined.

Lemma form_candidate_lookup (values : Page.form_values) (f : Page.field) :
  Home.form_candidate values !! Page.name f =
    Some (VStr (default "" (Page.watch values f))).
Proof.
  unfold Home.form_candidate. destruct f; reflexivity.
Qed.

(** X7.  The page as it is never reaches the callback of [handleSubmit]:
    the first name is the text of an input, a text is no number, so
    whatever has been typed and whenever the form is submitted, the
    submission is rejected with the type error "expected number, received
    string" on [firstName].  The three plain texts never have an error,
    and the email has the translated one exactly when the address
    pattern rejects its text, the empty text of an untouched input
    included. *)
Theorem form_never_submitted (t : translator) (email_regex : string -> bool)
    (s : Page.state) :
  let c := Home.form_candidate (Page.values s) in
  Home.onSubmit t email_regex s = Schema.Rejected (Schema.errors t email_regex c) /\
  Schema.errors t email_regex c !! "firstName" =
    Some (Schema.invalid_type Schema.TyNumber Schema.TyString) /\
  Schema.errors t email_regex c !! "middleName" = None /\
  Schema.errors t email_regex c !! "lastName" = None /\
  Schema.errors t email_regex c !! "password" = None /\
  Schema.errors t email_regex c !! "email" =
    (if email_regex (default "" (Page.watch (Page.values s) Page.email)) then None
     else Some (Schema.invalid_email (t "email_invalid" []))) /\
  (forall es, exists errs,
     Home.onSubmit t email_regex (Page.run es s) = Schema.Rejected errs /\
     errs !! "firstName" = Some (Schema.invalid_type Schema.TyNumber Schema.TyString)).
Proof.
  assert (Hfn : forall s' : Page.state,
            Schema.errors t email_regex (Home.form_candidate (Page.values s')) !! "firstName" =
              Some (Schema.invalid_type Schema.TyNumber Schema.TyString)).
  { intros s'. rewrite errors_lookup, shape_firstName.
    unfold Schema.get.
    pose proof (form_candidate_lookup (Page.values s') Page.firstName) as Hl.
    cbn [Page.name] in Hl. now rewrite Hl. }
  assert (Hrej : forall s' : Page.state,
            Home.onSubmit t email_regex s' =
              Schema.Rejected
                (Schema.errors t email_regex (Home.form_candidate (Page.values s')))).
  { intros s'. unfold Home.onSubmit.
    destruct (handleSubmit_cases t email_regex (Home.form_candidate (Page.values s')))
      as [[He _]|[_ ->]]; [|reflexivity].
    specialize (Hfn s'). rewrite He, lookup_empty in Hfn. discriminate. }
  intros c. split; [apply Hrej|]. split; [apply Hfn|].
  assert (Hplain : forall f, (list_to_map (Schema.shape t) : gmap string Schema.zod)
                               !! Page.name f = Some (Schema.z_string []) ->
                             Schema.errors t email_regex c !! Page.name f = None).
  { intros f Hf. rewrite (plain_string_error t email_regex c _ Hf).
    unfold Schema.get, c. now rewrite form_candidate_lookup. }
  pose proof (Hplain Page.middleName (shape_middleName t)) as Hmn.
  pose proof (Hplain Page.lastName (shape_lastName t)) as Hln.
  pose proof (Hplain Page.password (shape_password t)) as Hpw.
  cbn [Page.name] in Hmn, Hln, Hpw.
  split; [exact Hmn|]. split; [exact Hln|]. split; [exact Hpw|].
  split.
  - rewrite email_entry. unfold Schema.get, c.
    pose proof (form_candidate_lookup (Page.values s) Page.email) as Hl.
    cbn [Page.name] in Hl. now rewrite Hl.
  - intros es. eexists. split; [apply Hrej | apply Hfn].
Qed.

(** On the page just mounted the submission reports the type error on
    the first name and the translated error on the email; with a valid
    address and "12" typed as first name it is still rejected. *)
Lemma form_never_submitted_witness :
  Schema.errors Schema.sample_t Schema.sample_email_regex
      (Home.form_candidate (Page.values Page.mount)) !! "firstName" =
    Some (Schema.invalid_type Schema.TyNumber Schema.TyString) /\
  Schema.errors Schema.sample_t Schema.sample_email_regex
      (Home.form_candidate (Page.values Page.mount)) !! "email" =
    Some (Schema.invalid_email "email_invalid") /\
  exists errs,
    Home.onSubmit Schema.sample_t Schema.sample_email_regex
      (Page.run [Page.Input Page.email "a@b.co"; Page.Input Page.firstName "12"]
         Page.mount) = Schema.Rejected errs /\
    errs !! "firstName" = Some (Schema.invalid_type Schema.TyNumber Schema.TyString).
Proof.
  pose proof (form_never_submitted Schema.sample_t Schema.sample_email_regex Page.mount)
    as (_ & Hfn & _ & _ & _ & He & Hall).
  split; [exact Hfn|]. split; [rewrite He; reflexivity|].
  apply (Hall [Page.Input Page.email "a@b.co"; Page.Input Page.firstName "12"]).
Defined.

(** * Further properties of the score presentation *)

Lemma scoreMap_entries (k : Z) (e : Score.entry) :
  Score.scoreMap !! k = Some e ->
  (k = 0 /\ e = Score.Entry "very_weak" 20 "red") \/
  (k = 1 /\ e = Score.Entry "weak" 40 "orange") \/
  (k = 2 /\ e = Score.Entry "average" 60 "yellow") \/
  (k = 3 /\ e = Score.Entry "strong" 80 "cyan") \/
  (k = 4 /\ e = Score.Entry "very_strong" 100 "green").
Proof.
  intros He.
  assert (Hk : 0 <= k <= 4) by (apply scoreMap_defined; eauto).
  assert (Hcases : k = 0 \/ k = 1 \/ k = 2 \/ k = 3 \/ k = 4) by lia.
  destruct Hcases as [->|[->|[->|[->| ->]]]]; vm_compute in He;
    injection He as <-; tauto.
Qed.





(** X9.  The tiers tell the scores apart: a higher score has a strictly higher
    progress value, and two different scores never share a label or a
    colour.  No label is empty, so an entry that is found is shown. *)
Theorem tiers_distinct_and_increasing (k1 k2 : Z) (e1 e2 : Score.entry) :
  Score.scoreMap !! k1 = Some e1 -> Score.scoreMap !! k2 = Some e2 ->
  truthy_string (Score.key e1) = true /\
  (k1 < k2 ->
     Score.score e1 < Score.score e2 /\
     Score.key e1 <> Score.key e2 /\
     Score.color e1 <> Score.color e2) /\
  (Score.key e1 = Score.key e2 \/ Score.color e1 = Score.color e2 \/
   Score.score e1 = Score.score e2 -> k1 = k2).
Proof.
  intros H1 H2.
  destruct (scoreMap_entries k1 e1 H1) as [[-> ->]|[[-> ->]|[[-> ->]|[[-> ->]|[-> ->]]]]];
  destruct (scoreMap_entries k2 e2 H2) as [[-> ->]|[[-> ->]|[[-> ->]|[[-> ->]|[-> ->]]]]];
    simpl; (split; [reflexivity|]); split;
    solve [ intros; lia
          | intros _; repeat split; (lia || discriminate)
          | reflexivity
          | intros [H|[H|H]]; (discriminate H || reflexivity) ].
Qed.

Lemma tiers_distinct_and_increasing_witness :
  Score.score (Score.Entry "weak" 40 "orange") <
  Score.score (Score.Entry "strong" 80 "cyan").
Proof.
  destruct (tiers_distinct_and_increasing 1 3 (Score.Entry "weak" 40 "orange")
              (Score.Entry "strong" 80 "cyan")) as (_ & Hlt & _);
    [reflexivity | reflexivity |].
  apply Hlt. lia.
Defined.

(** * Further properties of the debounced trigger and of the scoring client *)

Lemma revalidate_sent (b : option Page.swr_key) (s : Page.state) (k : Page.swr_key) :
  Page.key s = Some k ->
  Page.requests (Page.revalidate b s) =
    (if decide (b = Some k \/ k ∈ Page.held (Page.swr s)) then Page.requests s
     else Page.requests s ++ [Page.fetcher k])%list.
Proof.
  intros Hk. unfold Page.revalidate, Page.fetch. rewrite Hk.
  destruct (decide (b = Some k)) as [Hb|Hb].
  - destruct (decide (b = Some k \/ k ∈ Page.held (Page.swr s))) as [_|Hn];
      [reflexivity | destruct Hn; now left].
  - destruct (decide (k ∈ Page.held (Page.swr s))) as [Hh|Hh].
    + destruct (decide (b = Some k \/ k ∈ Page.held (Page.swr s))) as [_|Hn];
        [reflexivity | destruct Hn; now right].
    + destruct (decide (b = Some k \/ k ∈ Page.held (Page.swr s))) as [[Hy|Hy]|_];
        [contradiction | contradiction | reflexivity].
Qed.

Lemma same_key_iff (u p : string) (a b : list string) :
  Some (u, p, a) = Some (u, p, b) <-> b = a.
Proof. split; [intros [= ->]; reflexivity | intros ->; reflexivity]. Qed.

Lemma render_sent (b : option Page.swr_key) (s : Page.state) (k : Page.swr_key) :
  Page.key s = Some k ->
  Page.requests (Page.render b s) =
    (if decide (b = Some k \/ k ∈ Page.held (Page.swr s)) then Page.requests s
     else Page.requests s ++ [Page.fetcher k])%list.
Proof.
  intros Hk. unfold Page.render.
  rewrite (revalidate_sent b _ k); [reflexivity | exact Hk].
Qed.





(** X12.  No edit commits a password, and every edit starts the delay
    again.  Once a password is committed, an edit that changes the
    non-empty related terms asks SWR for the new key at once, without
    waiting for the delay: the request carries the committed password and
    the new terms, and goes out unless SWR still holds a request for
    that key (one in flight, or answered within the deduping interval).
    An edit that leaves those terms as they are (the password input, an
    input going from untouched to empty) sends nothing, and before the
    first commit no edit sends anything. *)
Theorem related_edit_sends_at_once (s : Page.state) (f : Page.field) (v : string) :
  let s' := Page.input f v s in
  let k' := (Page.endpoint, Page.debouncedPassword s,
             Page.filter_truthy (Page.relatedTerms s')) in
  Page.commits s' = Page.commits s /\
  Page.debouncedPassword s' = Page.debouncedPassword s /\
  Page.timeout s' = Some 1000%nat /\
  (Page.debouncedPassword s = "" -> Page.requests s' = Page.requests s) /\
  (Page.debouncedPassword s <> "" ->
   Page.requests s' =
     (if decide (Page.filter_truthy (Page.relatedTerms s') =
                 Page.filter_truthy (Page.relatedTerms s) \/
                 k' ∈ Page.held (Page.swr s))
      then Page.requests s
      else Page.requests s ++
             [Page.Request Page.POST Page.endpoint (Page.debouncedPassword s)
                (Page.filter_truthy (Page.relatedTerms s')) None])%list).
Proof.
  intros s' k'. destruct (input_state f v s) as (Hv & Hd & Hto & Hc).
  split; [exact Hc|]. split; [exact Hd|]. split; [exact Hto|].
  set (s1 := Page.State (<[Page.name f := v]> (Page.values s)) (Page.debouncedPassword s)
               (Page.timeout s) (Page.commits s) (Page.requests s) (Page.swr s)).
  assert (Hterms : Page.relatedTerms s' = Page.relatedTerms s1).
  { unfold Page.relatedTerms. unfold s'. now rewrite Hv. }
  unfold k'. rewrite Hterms. change s' with (Page.render (Page.key s) s1). split.
  - intros Hempty. rewrite render_same; [reflexivity|].
    rewrite (key_None s Hempty). now apply (key_None s1).
  - intros Hset.
    assert (Hk1 : Page.key s1 =
              Some (Page.endpoint, Page.debouncedPassword s,
                    Page.filter_truthy (Page.relatedTerms s1)))
      by (apply (key_Some s1); exact Hset).
    rewrite (render_sent _ _ _ Hk1), (key_Some s Hset).
    change (Page.held (Page.swr s1)) with (Page.held (Page.swr s)).
    change (Page.requests s1) with (Page.requests s).
    set (k1 := (Page.endpoint, Page.debouncedPassword s,
                Page.filter_truthy (Page.relatedTerms s1))).
    apply decide_ext. unfold k1.
    apply or_iff_compat_r, same_key_iff.
Qed.

(** With "abc" committed and its request unanswered, typing "a" in the
    email input sends a request with that term; clearing the input again
    brings back the key of the first request, which SWR still holds, and
    sends nothing.  Once that request is answered and its deduping
    interval is over, the same two edits send two requests. *)
Lemma related_edit_sends_at_once_witness :
  let s := Page.run [Page.Input Page.password "abc"; Page.Elapse 1000] Page.mount in
  let answered := Page.run [Page.Respond (Page.endpoint, "abc", []);
                            Page.Expire (Page.endpoint, "abc", [])] s in
  Page.requests (Page.input Page.email "" (Page.input Page.email "a" s)) =
    [ Page.Request Page.POST Page.endpoint "abc" [] None;
      Page.Request Page.POST Page.endpoint "abc" ["a"] None ] /\
  Page.requests (Page.input Page.email "" s) =
    [ Page.Request Page.POST Page.endpoint "abc" [] None ] /\
  Page.requests (Page.input Page.email "" (Page.input Page.email "a" answered)) =
    [ Page.Request Page.POST Page.endpoint "abc" [] None;
      Page.Request Page.POST Page.endpoint "abc" ["a"] None;
      Page.Request Page.POST Page.endpoint "abc" [] None ].
Proof.
  intros s answered.
  assert (Hd : Page.debouncedPassword s <> "") by (vm_compute; discriminate).
  assert (Hd1 : Page.debouncedPassword (Page.input Page.email "a" s) <> "")
    by (vm_compute; discriminate).
  assert (Hd2 : Page.debouncedPassword (Page.input Page.email "a" answered) <> "")
    by (vm_compute; discriminate).
  pose proof (related_edit_sends_at_once (Page.input Page.email "a" s) Page.email "")
    as (_ & _ & _ & _ & Ha).
  pose proof (related_edit_sends_at_once s Page.email "") as (_ & _ & _ & _ & Hb).
  pose proof (related_edit_sends_at_once (Page.input Page.email "a" answered) Page.email "")
    as (_ & _ & _ & _ & Hc).
  split; [rewrite (Ha Hd1); vm_compute; reflexivity|].
  split; [rewrite (Hb Hd); vm_compute; reflexivity|].
  rewrite (Hc Hd2). vm_compute. reflexivity.
Defined.

Lemma filter_truthy_filter (terms : list (option string)) :
  Some <$> Page.filter_truthy terms = filter (fun e => truthy e = true) terms.
Proof.
  unfold Page.filter_truthy.
  induction terms as [|e terms IH]; [reflexivity|].
  rewrite filter_cons. cbn [omap list_omap].
  destruct (decide (truthy e = true)) as [Ht|Ht].
  - rewrite Ht. destruct e as [x|]; [|discriminate].
    rewrite fmap_cons. now f_equal.
  - apply not_true_is_false in Ht. rewrite Ht. exact IH.
Qed.

(** X13.  The related terms of a request are the texts of the email, first
    name, last name and middle name inputs, in that order, the untouched
    and the empty ones left out and nothing else: at most four terms, all
    four when every input holds a text. *)
Theorem related_terms_in_order (s : Page.state) :
  let inputs := [ Page.values s !! "email"; Page.values s !! "firstName";
                  Page.values s !! "lastName"; Page.values s !! "middleName" ] in
  let terms := Page.body_related_terms (request_of s) in
  Some <$> terms = filter (fun e => truthy e = true) inputs /\
  (length terms <= 4)%nat /\
  (forall e fn ln mn, inputs = [Some e; Some fn; Some ln; Some mn] ->
     e <> "" -> fn <> "" -> ln <> "" -> mn <> "" -> terms = [e; fn; ln; mn]) /\
  (Forall (fun i => truthy i = false) inputs -> terms = []).
Proof.
  intros inputs terms.
  assert (Hspec : Some <$> terms = filter (fun e => truthy e = true) inputs)
    by apply filter_truthy_filter.
  split; [exact Hspec|]. split; [|split].
  - rewrite <- (length_fmap Some), Hspec.
    etransitivity; [apply length_filter|]. reflexivity.
  - intros e fn ln mn Hin He Hfn Hln Hmn.
    apply (inj (fmap Some)). rewrite Hspec, Hin.
    apply truthy_string_true in He, Hfn, Hln, Hmn.
    rewrite !filter_cons, filter_nil. simpl.
    rewrite He, Hfn, Hln, Hmn. reflexivity.
  - intros Hall. apply (inj (fmap Some)). rewrite Hspec. simpl.
    clear Hspec terms. induction Hall as [|i l Hi _ IH]; [reflexivity|].
    rewrite filter_cons, decide_False by congruence. exact IH.
Qed.

Lemma related_terms_in_order_witness :
  let s := Page.run [Page.Input Page.middleName "King"; Page.Input Page.email "a@b.co";
                     Page.Input Page.lastName "Lovelace"; Page.Input Page.firstName "Ada"]
             Page.mount in
  Page.body_related_terms (request_of s) = ["a@b.co"; "Ada"; "Lovelace"; "King"].
Proof.
  intros s.
  pose proof (related_terms_in_order s) as (_ & _ & Hall & _).
  apply Hall; solve [reflexivity | discriminate].
Defined.

Lemma period_commits (s : Page.state) (p : string) (es : list Page.event) :
  quiet es ->
  exists k,
    Page.commits (Page.run (Page.Input Page.password p :: es) s) =
      (Page.commits s ++ repeat p k)%list /\
    (if decide (p = "") then k = 0%nat else (1 <= k)%nat) /\
    Page.debouncedPassword (Page.run (Page.Input Page.password p :: es) s) =
      (if decide (p = "") then Page.debouncedPassword s else p).
Proof.
  intros [Hes Hw].
  change (Page.run (Page.Input Page.password p :: es) s)
    with (Page.run es (Page.input Page.password p s)).
  destruct (run_since es p (Page.commits s) (Page.debouncedPassword s) 0
              (Page.input Page.password p s) Hes)
    as (k & _ & (_ & Hck & Hk0 & Hdk) & _ & Hone).
  - rewrite input_password. split; [apply lookup_insert_eq|].
    split; [simpl; now rewrite app_nil_r|]. split; [reflexivity|]. reflexivity.
  - left. exists Page.delay. split; [apply input_state | lia].
  - exists k. split; [exact Hck|]. rewrite Hdk.
    destruct (decide (p = "")) as [He|Hne].
    + rewrite (Hk0 He). split; reflexivity.
    + destruct (Hone Hw) as [He|Hk]; [contradiction|]. split; [exact Hk|].
      destruct (decide (k = 0%nat)); [lia | reflexivity].
Qed.

(** X15.  The user edits the password, stops typing until 1000 ms have
    passed with nothing happening, edits again, and so on.  Then
    [setDebouncedPassword] is called for each non-empty password in its
    own period, at least once and with that password only (the calls after
    the first leave the state as it is), and never for an empty one.  The
    debounced password ends as the last non-empty password typed, or
    stays what it was when all of them are empty. *)
Theorem quiet_period_commits_last (ps : list (string * list Page.event)) (s : Page.state) :
  Forall (fun pe : string * list Page.event => quiet pe.2) ps ->
  let s' := Page.run (periods ps) s in
  (exists calls : list (list string),
     Page.commits s' = (Page.commits s ++ concat calls)%list /\
     Forall2 (fun (pe : string * list Page.event) (c : list string) =>
                exists k, c = repeat pe.1 k /\
                  if decide (pe.1 = "") then k = 0%nat else (1 <= k)%nat)
       ps calls) /\
  Page.debouncedPassword s' =
    List.last (filter (fun p => p <> "") ps.*1) (Page.debouncedPassword s).
Proof.
  revert s; induction ps as [|[p es] ps IH]; intros s Hq.
  - simpl. split; [|reflexivity].
    exists []. split; [now rewrite app_nil_r | apply Forall2_nil_2].
  - apply Forall_cons in Hq as [Hes Hq]. simpl in Hes.
    destruct (period_commits s p es Hes) as (k & Hc & Hk & Hd).
    set (s1 := Page.run (Page.Input Page.password p :: es) s) in *.
    destruct (IH s1 Hq) as ((calls & Hc' & Hall) & Hd').
    assert (Hrun : Page.run (periods ((p, es) :: ps)) s = Page.run (periods ps) s1).
    { unfold periods. cbn [flat_map fst snd]. apply run_app. }
    cbv zeta. rewrite Hrun. split.
    + exists (repeat p k :: calls). split.
      * rewrite Hc', Hc. cbn [concat]. now rewrite app_assoc.
      * apply Forall2_cons_2; [|exact Hall]. exists k. split; [reflexivity | exact Hk].
    + rewrite Hd', Hd, fmap_cons. cbn [fst]. rewrite filter_cons.
      destruct (decide (p = "")) as [He|Hne].
      * rewrite decide_False by tauto. reflexivity.
      * rewrite decide_True by exact Hne. symmetry. apply last_cons_default.
Qed.

(** "abc", a cleared input and "abcd", each left alone for a second or
    more, the last one with an answer arriving in between: the debounced
    password ends as "abcd". *)
Lemma quiet_period_commits_last_witness :
  Page.debouncedPassword
    (Page.run
       (periods [ ("abc", [Page.Elapse 1000]); ("", [Page.Elapse 1500]);
                  ("abcd", [Page.Elapse 400; Page.Respond (Page.endpoint, "abc", []);
                            Page.Elapse 2000]) ])
       Page.mount) = "abcd".
Proof.
  apply (quiet_period_commits_last
           [ ("abc", [Page.Elapse 1000]); ("", [Page.Elapse 1500]);
             ("abcd", [Page.Elapse 400; Page.Respond (Page.endpoint, "abc", []);
                       Page.Elapse 2000]) ] Page.mount).
  apply Forall_cons; split.
  { split; [apply Forall_cons; split; [exact I | apply Forall_nil_2]|].
    apply Exists_cons_hd. simpl. lia. }
  apply Forall_cons; split.
  { split; [apply Forall_cons; split; [exact I | apply Forall_nil_2]|].
    apply Exists_cons_hd. simpl. lia. }
  apply Forall_cons; split; [|apply Forall_nil_2].
  split; [repeat (apply Forall_cons; split; [exact I|]); apply Forall_nil_2|].
  apply Exists_cons_tl, Exists_cons_tl, Exists_cons_hd. simpl. lia.
Defined.

(** * Properties of the static props *)

(** X16.  The translations are loaded for the locale of the request, and for
    "en" when there is none or it is empty; the locale asked for is never
    empty and the namespace is always "common". *)
Theorem static_props_locale {props : Type}
    (serverSideTranslations : string -> list string -> props) (locale : option string) :
  Home.locale_or_en locale <> "" /\
  (forall l, locale = Some l -> l <> "" ->
     Home.getStaticProps serverSideTranslations locale =
       serverSideTranslations l ["common"]) /\
  (truthy locale = false ->
     Home.getStaticProps serverSideTranslations locale =
       Home.getStaticProps serverSideTranslations (Some "en")) /\
  exists l, l <> "" /\
    Home.getStaticProps serverSideTranslations locale = serverSideTranslations l ["common"].
Proof.
  assert (Hne : Home.locale_or_en locale <> "").
  { unfold Home.locale_or_en. destruct locale as [l|]; [|discriminate].
    destruct (truthy_string l) eqn:Hl; [|discriminate]. now apply truthy_string_true. }
  split; [exact Hne|]. split; [|split].
  - intros l -> Hl. unfold Home.getStaticProps, Home.locale_or_en.
    apply truthy_string_true in Hl. now rewrite Hl.
  - intros Hf. unfold Home.getStaticProps, Home.locale_or_en.
    destruct locale as [l|]; [|reflexivity]. simpl in Hf. now rewrite Hf.
  - exists (Home.locale_or_en locale). split; [exact Hne | reflexivity].
Qed.

Lemma static_props_locale_witness :
  Home.getStaticProps (fun l ns => (l, ns)) (Some "") = ("en", ["common"]) /\
  Home.getStaticProps (fun l ns => (l, ns)) (Some "de") = ("de", ["common"]).
Proof.
  split.
  - pose proof (static_props_locale (fun l ns => (l, ns)) (Some "")) as (_ & _ & Hen & _).
    rewrite Hen; reflexivity.
  - pose proof (static_props_locale (fun l ns => (l, ns)) (Some "de")) as (_ & Hl & _).
    apply (Hl "de"); [reflexivity | discriminate].
Defined.
